(** * Video controller: request validation, listing pipeline, upload and
      update workflows

    A shallow embedding of [src/controllers/video.controller.js].  The four
    implemented handlers ([getAllVideos], [publishAVideo], [getVideoById],
    [updateVideo]) are transcribed statement by statement into a small
    state-and-exception monad.  The state is the world a handler talks to:
    the stored videos and users, the media store, and a log of every call
    that leaves the process, so that the order of uploads, writes and
    deletions can be stated.

    What the handlers import and do not define is kept apart:
    - the language runtime: string trimming and truthiness, and numbers
      with the string-to-number conversion ([JsString], [JsNumber]);
    - the object-document mapper, the regular expressions and the order
      the database sorts by: the class [Platform], with one executable
      instance ([Reference]);
    - the aggregation engine: an interpreter of the seven stages the
      listing uses ([Engine]);
    - the modules of the repository that are not among the sources (the
      Video schema, the media store helpers, the response envelope): each
      is modelled from the specification and says so. *)

From Stdlib Require Import ZArith QArith Qreduction Qcanon.
From Stdlib Require Import String Ascii List Bool Lia.
From Stdlib Require Import Permutation Sorting.Sorted OrdersEx.
Import ListNotations.

Open Scope string_scope.
Open Scope Z_scope.

(** ** Strings as the runtime sees them

    A string of the runtime is kept as its UTF-8 encoding, one byte per
    character of the model's string: this is how the text of a request
    reaches the server, and equality of two well-formed encodings is
    equality of the strings. *)

Module JsString.

(** The white space that [String.prototype.trim] removes and the
    string-to-number conversion skips is WhiteSpace and LineTerminator of
    the language: TAB, LF, VT, FF, CR and SPACE in one byte; U+00A0 in two
    bytes; U+1680, U+2000 to U+200A, U+2028, U+2029, U+202F, U+205F,
    U+3000 and U+FEFF in three. *)
Definition is_space (c : ascii) : bool :=
  let n := nat_of_ascii c in
  ((9 <=? n) && (n <=? 13))%nat || (n =? 32)%nat.

Definition is_space2 (a b : ascii) : bool :=
  ((nat_of_ascii a =? 194) && (nat_of_ascii b =? 160))%nat.

Definition is_space3 (a b c : ascii) : bool :=
  let x := nat_of_ascii a in
  let y := nat_of_ascii b in
  let z := nat_of_ascii c in
  ((x =? 225) && (y =? 154) && (z =? 128)
   || (x =? 226) && (y =? 128)
      && ((128 <=? z) && (z <=? 138) || (z =? 168) || (z =? 169) || (z =? 175))
   || (x =? 226) && (y =? 129) && (z =? 159)
   || (x =? 227) && (y =? 128) && (z =? 128)
   || (x =? 239) && (y =? 187) && (z =? 191))%nat.

Fixpoint trimStart (s : string) : string :=
  match s with
  | EmptyString => EmptyString
  | String a r1 =>
      if is_space a then trimStart r1
      else
        match r1 with
        | EmptyString => s
        | String b r2 =>
            if is_space2 a b then trimStart r2
            else
              match r2 with
              | EmptyString => s
              | String c r3 => if is_space3 a b c then trimStart r3 else s
              end
        end
  end.

(** Nothing but white space. *)
Definition all_space (s : string) : bool :=
  match trimStart s with EmptyString => true | _ => false end.

(** [trimEnd] cuts the string where nothing but white space follows.  A
    byte inside the encoding of a character never starts white space, so
    the test is made at the first byte of a character when it matters. *)
Fixpoint trimEnd (s : string) : string :=
  match s with
  | EmptyString => EmptyString
  | String c r => if all_space s then EmptyString else String c (trimEnd r)
  end.

Definition trim (s : string) : string := trimEnd (trimStart s).

(** ToBoolean on a string: only the empty string is falsy. *)
Definition truthy (s : string) : bool :=
  match s with EmptyString => false | _ => true end.

(** ToBoolean on a possibly [undefined] string. *)
Definition truthy_opt (o : option string) : bool :=
  match o with Some s => truthy s | None => false end.

End JsString.

(** ** Numbers

    A runtime number is a binary64 value: [NaN], an infinity or a finite
    value.  A finite value is kept as the rational it is, in lowest terms;
    every operation and the conversion from a string round the exact
    result to the nearest binary64 value, ties to even, and overflow to an
    infinity ([binary64]).  The two zeros are not told apart: nothing here
    divides or prints a number. *)

Module JsNumber.

Inductive number : Type :=
| NaN
| Infinity (negative : bool)
| Finite (q : Q).

Definition of_Z (z : Z) : number := Finite (inject_Z z).

(** [Number.isFinite] *)
Definition isFinite (n : number) : bool :=
  match n with Finite _ => true | _ => false end.

(** [Number.isInteger] *)
Definition isInteger (n : number) : bool :=
  match n with
  | Finite q => Pos.eqb (Qden (Qred q)) 1
  | _ => false
  end.

(** The integer a number denotes, when it denotes one. *)
Definition to_Z (n : number) : option Z :=
  match n with
  | Finite q => if Pos.eqb (Qden (Qred q)) 1 then Some (Qnum (Qred q)) else None
  | _ => None
  end.

(** [a < b]; any comparison with [NaN] is false. *)
Definition lt (a b : number) : bool :=
  match a, b with
  | NaN, _ | _, NaN => false
  | Finite x, Finite y => negb (Qle_bool y x)
  | Infinity true, Infinity true => false
  | Infinity true, _ => true
  | Infinity false, _ => false
  | Finite _, Infinity negative => negb negative
  end.

(** *** Rounding to binary64 *)

(** The integer part of the binary logarithm of [n / d], for positive [n]
    and [d]: the difference of the two logarithms or one less. *)
Definition floor_log2 (n d : Z) : Z :=
  let k := Z.log2 n - Z.log2 d in
  let below := if 0 <=? k then n <? d * 2 ^ k else n * 2 ^ (- k) <? d in
  if below then k - 1 else k.

(** [num / den] rounded to the nearest integer, a tie going to the even
    one. *)
Definition nearest_even (num den : Z) : Z :=
  let m := num / den in
  let r := num mod den in
  if (den <? 2 * r) || ((den =? 2 * r) && Z.odd m) then m + 1 else m.

(** The binary64 value nearest to a rational: 53 significant bits, the
    exponent of the last bit not below -1074, and an infinity from
    [2 ^ 1024] on. *)
Definition binary64 (q : Q) : number :=
  let q := Qred q in
  let n := Z.abs (Qnum q) in
  let d := Zpos (Qden q) in
  if n =? 0 then Finite 0
  else
    let e := Z.max (-1074) (floor_log2 n d - 52) in
    let m := if 0 <=? e then nearest_even n (d * 2 ^ e)
             else nearest_even (n * 2 ^ (- e)) d in
    let sm := if Qnum q <? 0 then - m else m in
    if 0 <=? e then
      if 2 ^ 1024 <=? m * 2 ^ e then Infinity (Qnum q <? 0)
      else Finite (inject_Z (sm * 2 ^ e))
    else Finite (Qred (sm # Z.to_pos (2 ^ (- e)))).

(** [a - b] *)
Definition sub (a b : number) : number :=
  match a, b with
  | NaN, _ | _, NaN => NaN
  | Finite x, Finite y => binary64 (x - y)
  | Finite _, Infinity s => Infinity (negb s)
  | Infinity s, Finite _ => Infinity s
  | Infinity s, Infinity t => if Bool.eqb s t then NaN else Infinity s
  end.

Definition is_zero (q : Q) : bool := Qeq_bool q 0.
Definition is_neg (q : Q) : bool := negb (Qle_bool 0 q).

(** [a * b] *)
Definition mul (a b : number) : number :=
  match a, b with
  | NaN, _ | _, NaN => NaN
  | Finite x, Finite y => binary64 (x * y)
  | Finite x, Infinity s | Infinity s, Finite x =>
      if is_zero x then NaN else Infinity (xorb s (is_neg x))
  | Infinity s, Infinity t => Infinity (xorb s t)
  end.

(** *** String to number ([Number(s)] on a string)

    The StringNumericLiteral grammar: optional white space around an
    optionally signed decimal literal (with fraction and exponent), the
    word [Infinity], or an unsigned literal in base 16, 8 or 2.  The empty
    string (after trimming) converts to 0 and everything else to [NaN]. *)

Definition digit_in (base : Z) (c : ascii) : option Z :=
  let n := Z.of_nat (nat_of_ascii c) in
  let d :=
    if (48 <=? n) && (n <=? 57) then Some (n - 48)
    else if (97 <=? n) && (n <=? 102) then Some (n - 87)
    else if (65 <=? n) && (n <=? 70) then Some (n - 55)
    else None in
  match d with
  | Some v => if v <? base then Some v else None
  | None => None
  end.

(** Longest prefix of digits in [base], most significant first, with the
    rest of the input. *)
Fixpoint digits (base : Z) (s : string) : list Z * string :=
  match s with
  | String c r =>
      match digit_in base c with
      | Some d => let (ds, rest) := digits base r in (d :: ds, rest)
      | None => ([], s)
      end
  | EmptyString => ([], s)
  end.

Definition value_of (base : Z) (ds : list Z) : Z :=
  fold_left (fun acc d => base * acc + d) ds 0.

Definition is_nil {A} (l : list A) : bool :=
  match l with [] => true | _ => false end.

(** A string made of digits only, and at least one. *)
Definition all_digits (base : Z) (s : string) : option Z :=
  match digits base s with
  | (d :: ds, EmptyString) => Some (value_of base (d :: ds))
  | _ => None
  end.

(** [e] or [E], an optional sign, digits up to the end of the input; no
    exponent part at all counts as exponent 0. *)
Definition exponent (s : string) : option Z :=
  match s with
  | EmptyString => Some 0
  | String c r =>
      if (Ascii.eqb c "e" || Ascii.eqb c "E")%char then
        match r with
        | String "-"%char r' => option_map Z.opp (all_digits 10 r')
        | String "+"%char r' => all_digits 10 r'
        | _ => all_digits 10 r
        end
      else None
  end.

(** StrUnsignedDecimalLiteral without the [Infinity] alternative. *)
Definition unsigned_decimal (s : string) : option Q :=
  let (ip, r1) := digits 10 s in
  let '(fp, r2) :=
    match r1 with
    | String "."%char r => digits 10 r
    | _ => ([], r1)
    end in
  if is_nil ip && is_nil fp then None
  else
    match exponent r2 with
    | Some e =>
        Some (Qred (inject_Z (value_of 10 (ip ++ fp))
                    * Qpower (inject_Z 10) (e - Z.of_nat (length fp))))
    | None => None
    end.

Definition unsigned_literal (s : string) : number :=
  if String.eqb s "Infinity" then Infinity false
  else match unsigned_decimal s with
       | Some q => binary64 q
       | None => NaN
       end.

Definition neg (n : number) : number :=
  match n with
  | NaN => NaN
  | Infinity s => Infinity (negb s)
  | Finite q => Finite (Qred (- q))
  end.

Definition radix_literal (base : Z) (s : string) : number :=
  match all_digits base s with
  | Some v => binary64 (inject_Z v)
  | None => NaN
  end.

Definition of_string (s : string) : number :=
  match JsString.trim s with
  | EmptyString => of_Z 0
  | String "0"%char (String c r) as t =>
      if (Ascii.eqb c "x" || Ascii.eqb c "X")%char then radix_literal 16 r
      else if (Ascii.eqb c "o" || Ascii.eqb c "O")%char then radix_literal 8 r
      else if (Ascii.eqb c "b" || Ascii.eqb c "B")%char then radix_literal 2 r
      else unsigned_literal t
  | String "-"%char r => neg (unsigned_literal r)
  | String "+"%char r => unsigned_literal r
  | t => unsigned_literal t
  end.

Example of_string_2 : of_string "2" = of_Z 2.
Proof. reflexivity. Qed.
Example of_string_padded : of_string "  10 " = of_Z 10.
Proof. reflexivity. Qed.
Example of_string_fraction : of_string "1.5" = Finite (3 # 2).
Proof. reflexivity. Qed.
Example of_string_exponent : of_string "25e-1" = Finite (5 # 2).
Proof. reflexivity. Qed.
Example of_string_hex : of_string "0x1F" = of_Z 31.
Proof. reflexivity. Qed.
Example of_string_empty : of_string EmptyString = of_Z 0.
Proof. reflexivity. Qed.
Example of_string_word : of_string "two" = NaN.
Proof. reflexivity. Qed.
Example of_string_inf : of_string "-Infinity" = Infinity true.
Proof. reflexivity. Qed.
Example of_string_zero_frac : of_string "0.5" = Finite (1 # 2).
Proof. reflexivity. Qed.
Example of_string_nbsp : of_string (String (ascii_of_nat 194)
                                      (String (ascii_of_nat 160) "7")) = of_Z 7.
Proof. reflexivity. Qed.
Example of_string_overflow : of_string "1e400" = Infinity false.
Proof. vm_compute. reflexivity. Qed.
Example of_string_rounds_up : of_string "0.99999999999999999999" = of_Z 1.
Proof. vm_compute. reflexivity. Qed.
Example of_string_rounds_to_even :
  of_string "9007199254740993" = of_Z 9007199254740992.
Proof. vm_compute. reflexivity. Qed.
Example of_string_tenth : of_string "0.1" = Finite (3602879701896397 # 36028797018963968).
Proof. vm_compute. reflexivity. Qed.
Example of_string_max : of_string "1.7976931348623157e308" = of_Z (2 ^ 1024 - 2 ^ 971).
Proof. vm_compute. reflexivity. Qed.
Example of_string_tiny : of_string "5e-324" = Finite (1 # Z.to_pos (2 ^ 1074)).
Proof. vm_compute. reflexivity. Qed.
Example mul_rounds :
  mul (of_Z 9007199254740991) (of_Z 3) = of_Z 27021597764222972.
Proof. vm_compute. reflexivity. Qed.

End JsNumber.

Import JsNumber.

(** ** Documents

    The database stores and returns documents: finite maps from field names
    to values, kept as association lists because the order of the fields is
    part of a document. *)

Definition ObjectId := string.

Module Bson.

#[warnings="-register-all"] Inductive value : Type :=
| Null
| Num (n : number)
| Str (s : string)
| Oid (o : ObjectId)
| Bool (b : bool)
| Date (ms : Z)
| Arr (items : list value)
| Doc (fields : list (string * value)).

Definition document := list (string * value).

Fixpoint get (k : string) (d : document) : option value :=
  match d with
  | [] => None
  | (k', v) :: r => if String.eqb k k' then Some v else get k r
  end.

(** A field path, already split at its dots, followed from a value. *)
Fixpoint resolve (path : list string) (v : value) : option value :=
  match path with
  | [] => Some v
  | k :: rest =>
      match v with
      | Doc d =>
          match get k d with
          | Some v' => resolve rest v'
          | None => None
          end
      | _ => None
      end
  end.

(** ["a.b.c"] to [["a"; "b"; "c"]]. *)
Fixpoint split_path (s : string) : list string :=
  match s with
  | EmptyString => [EmptyString]
  | String c r =>
      if Ascii.eqb c "."%char then EmptyString :: split_path r
      else match split_path r with
           | k :: ks => String c k :: ks
           | [] => [String c EmptyString]
           end
  end.

Definition field (path : string) (d : document) : option value :=
  resolve (split_path path) (Doc d).

(** A missing field sorts as [Null]. *)
Definition sort_value (path : string) (d : document) : value :=
  match field path d with Some v => v | None => Null end.

Definition number_eqb (a b : number) : bool :=
  match a, b with
  | Finite x, Finite y => Qeq_bool x y
  | Infinity s, Infinity t => Bool.eqb s t
  | _, _ => false
  end.

(** Equality of two scalar values, as an equality match uses it; arrays
    and sub-documents are never equal to a scalar. *)
Definition scalar_eqb (a b : value) : bool :=
  match a, b with
  | Null, Null => true
  | Num x, Num y => number_eqb x y
  | Str x, Str y => String.eqb x y
  | Oid x, Oid y => String.eqb x y
  | Bool x, Bool y => Bool.eqb x y
  | Date x, Date y => Z.eqb x y
  | _, _ => false
  end.

Example split_path_dotted :
  split_path "ownerInfo.fullName" = ["ownerInfo"; "fullName"].
Proof. reflexivity. Qed.

Example field_nested :
  field "ownerInfo.avatar"
        [("title", Str "t"); ("ownerInfo", Doc [("avatar", Str "a.png")])]
  = Some (Str "a.png").
Proof. reflexivity. Qed.

End Bson.

Import Bson.

(** ** Data model *)

(** A file of a multipart request, as the upload middleware leaves it on
    disk. *)
Record File : Type := { path : string }.

(** What the media store reports for an uploaded asset; only video assets
    carry a duration. *)
Record Asset : Type := {
  url : string;
  asset_duration : option number
}.

Record User : Type := {
  user_id : ObjectId;
  fullName : string;
  username : string;
  avatar : string
}.

Definition user_document (u : User) : document :=
  [ ("_id", Oid (user_id u));
    ("fullName", Str (fullName u));
    ("username", Str (username u));
    ("avatar", Str (avatar u)) ].

(** Modelled from the spec: the Video schema ([src/models/video.model.js]
    is not among the sources).  Section 3 of the specification lists the
    fields; [createdAt] is the creation time stamp the listing projects. *)
Record VideoDoc : Type := {
  _id : ObjectId;
  videoFile : string;
  thumbnail : string;
  title : string;
  description : string;
  duration : option number;
  views : Z;
  isPublished : bool;
  owner : ObjectId;
  createdAt : Z
}.

Definition opt_field (k : string) (o : option value) : document :=
  match o with Some v => [(k, v)] | None => [] end.

Definition video_document (v : VideoDoc) : document :=
  ([ ("_id", Oid (_id v));
     ("videoFile", Str (videoFile v));
     ("thumbnail", Str (thumbnail v));
     ("title", Str (title v));
     ("description", Str (description v)) ]
   ++ opt_field "duration" (option_map Num (duration v))
   ++ [ ("views", Num (of_Z (views v)));
        ("isPublished", Bool (isPublished v));
        ("owner", Oid (owner v));
        ("createdAt", Date (createdAt v)) ])%list.

(** ** Errors *)

Inductive exn : Type :=
| ApiError (statusCode : Z) (message : string)
| TypeError (message : string)
| LibraryError (name : string) (message : string).

Inductive outcome (A : Type) : Type :=
| Return (a : A)
| Throw (e : exn).
Arguments Return {A} a.
Arguments Throw {A} e.

(** ** Aggregation pipelines *)

Record RegExp : Type := { source : string; flags : string }.

(** The stages [getAllVideos] uses, with the parameters it writes. *)
Inductive stage : Type :=
| Match (owner_is : ObjectId) (isPublished_is : bool) (title_regex : RegExp)
| Lookup (from localField foreignField as_ : string)
| AddFieldsFirst (name : string) (array_path : string)
| Sort (key : string) (direction : Z)
| Skip (n : number)
| Limit (n : number)
| Project (included : list string) (computed : list (string * string)).

Definition pipeline := list stage.

(** ** The platform

    What the handlers take from the object-document mapper, the language
    runtime and the database engine, and do not define themselves. *)
Class Platform : Type := {
  (** [mongoose.isValidObjectId(v)] *)
  isValidObjectId : option string -> bool;
  (** [mongoose.Types.ObjectId(v)]: converts a string, makes a new
      identifier from [undefined], or throws ([None]). *)
  Types_ObjectId : option string -> option ObjectId;
  (** the cast the object-document mapper applies to a string given as the
      [_id] of a query, [new ObjectId(s)]: the identifier the string
      denotes (the hexadecimal digits of an identifier are read in either
      case), or [None] when the cast throws *)
  cast_ObjectId : string -> option ObjectId;
  (** identifier given to the [n]-th document a collection creates *)
  generated_id : nat -> ObjectId;
  (** whether [new RegExp(source, flags)] is accepted; it throws a
      SyntaxError otherwise *)
  regexp_accepts : string -> string -> bool;
  (** whether a regular expression matches somewhere in a string *)
  regexp_test : RegExp -> string -> bool;
  (** whether the engine, whose regular expressions are of another dialect
      than the runtime's, takes a regular expression in [$regex] *)
  regex_supported : RegExp -> bool;
  (** whether the engine takes a string as the field path of a [$sort] key:
      it refuses the empty string, an empty component and a leading [$] *)
  sort_key_accepted : string -> bool;
  (** the engine's comparison order on field values *)
  value_leb : value -> value -> bool;
  value_leb_total : forall a b, value_leb a b = true \/ value_leb b a = true;
  value_leb_trans : forall a b c,
      value_leb a b = true -> value_leb b c = true -> value_leb a c = true
}.

(** ** The aggregation engine *)

Module Engine.
Section WithPlatform.
Context {P : Platform}.

Fixpoint insert {A} (le : A -> A -> bool) (x : A) (l : list A) : list A :=
  match l with
  | [] => [x]
  | y :: r => if le x y then x :: l else y :: insert le x r
  end.

(** Insertion sort.  The order of ties is the engine's choice, and it may
    differ from one request to the next: what is proved below of two
    requests is about rows without ties, which have one sorted order. *)
Definition sort {A} (le : A -> A -> bool) (l : list A) : list A :=
  fold_right (insert le) [] l.

Definition ascending (key : string) (a b : document) : bool :=
  value_leb (sort_value key a) (sort_value key b).

Definition descending (key : string) (a b : document) : bool :=
  value_leb (sort_value key b) (sort_value key a).

Definition matches (o : ObjectId) (p : bool) (re : RegExp) (d : document) : bool :=
  match get "owner" d, get "isPublished" d, get "title" d with
  | Some ow, Some pu, Some (Str t) =>
      scalar_eqb ow (Oid o) && scalar_eqb pu (Bool p) && regexp_test re t
  | _, _, _ => false
  end.

(** Replace or append a field. *)
Fixpoint set (k : string) (v : value) (d : document) : document :=
  match d with
  | [] => [(k, v)]
  | (k', v') :: r =>
      if String.eqb k k' then (k, v) :: r else (k', v') :: set k v r
  end.

Fixpoint remove (k : string) (d : document) : document :=
  match d with
  | [] => []
  | (k', v') :: r =>
      if String.eqb k k' then remove k r else (k', v') :: remove k r
  end.

Definition joined (foreign : list document) (foreignField : string)
           (local : option value) : list value :=
  match local with
  | Some lv =>
      map Doc
          (filter (fun f => match get foreignField f with
                            | Some fv => scalar_eqb lv fv
                            | None => false
                            end) foreign)
  | None => []
  end.

(** The value of a ["$path"] expression. *)
Definition expression (e : string) (d : document) : option value :=
  match e with
  | String "$"%char p => field p d
  | _ => Some (Str e)
  end.

Definition first_of (v : option value) : option value :=
  match v with
  | Some (Arr (x :: _)) => Some x
  | _ => None
  end.

Definition project (included : list string) (computed : list (string * string))
           (d : document) : document :=
  (filter (fun kv => existsb (String.eqb (fst kv)) included) d
   ++ flat_map (fun c => opt_field (fst c) (expression (snd c) d)) computed)%list.

(** [$lookup]: the documents of the foreign collection whose
    [foreignField] equals this document's [localField], as an array under
    [as_]. *)
Definition lookup (foreign : list document)
           (localField foreignField as_ : string) (d : document) : document :=
  set as_ (Arr (joined foreign foreignField (get localField d))) d.

(** [$addFields: { name: { $first: array_path } }]; the field is absent
    when the array has no first element. *)
Definition add_first (name array_path : string) (d : document) : document :=
  match first_of (expression array_path d) with
  | Some v => set name v d
  | None => remove name d
  end.

Definition bad_stage (m : string) : outcome (list document) :=
  Throw (LibraryError "MongoServerError" m).

(** The largest count the engine takes in [$skip] and [$limit]: they are
    64-bit integers. *)
Definition max_long : Z := 2 ^ 63 - 1.

(** One stage over the documents that reach it; [collection] resolves the
    name of a joined collection. *)
Definition run_stage (collection : string -> list document)
           (s : stage) (rows : list document) : outcome (list document) :=
  match s with
  | Match o p re =>
      if regex_supported re then Return (filter (matches o p re) rows)
      else bad_stage "$regex has an invalid pattern"
  | Lookup from localField foreignField as_ =>
      Return (map (lookup (collection from) localField foreignField as_) rows)
  | AddFieldsFirst name array_path =>
      Return (map (add_first name array_path) rows)
  | Sort key direction =>
      if negb (sort_key_accepted key)
      then bad_stage "$sort key must be a field path"
      else if direction =? 1 then Return (sort (ascending key) rows)
      else if direction =? -1 then Return (sort (descending key) rows)
      else bad_stage "$sort key ordering must be 1 or -1"
  | Skip n =>
      match to_Z n with
      | Some z =>
          if (0 <=? z) && (z <=? max_long) then Return (skipn (Z.to_nat z) rows)
          else bad_stage "$skip must be a non-negative 64-bit integer"
      | None => bad_stage "$skip must be a non-negative 64-bit integer"
      end
  | Limit n =>
      match to_Z n with
      | Some z =>
          if (1 <=? z) && (z <=? max_long) then Return (firstn (Z.to_nat z) rows)
          else bad_stage "$limit must be a positive 64-bit integer"
      | None => bad_stage "$limit must be a positive 64-bit integer"
      end
  | Project included computed =>
      Return (map (project included computed) rows)
  end.

Fixpoint run (collection : string -> list document)
         (p : pipeline) (rows : list document) : outcome (list document) :=
  match p with
  | [] => Return rows
  | s :: rest =>
      match run_stage collection s rows with
      | Return rows' => run collection rest rows'
      | Throw e => Throw e
      end
  end.

End WithPlatform.
End Engine.

(** ** The world outside a handler *)

(** Calls that leave the process, in the order they are made. *)
Inductive event : Type :=
| Uploaded (localPath : string)
| Deleted (assetUrl : string)
| Created (v : VideoDoc)
| Read (id : option string)
| Updated (id : option string) (newTitle newDescription newThumbnail : string)
| Aggregated (p : pipeline).

Record World : Type := {
  videos : list VideoDoc;
  users : list User;
  (** what the media store answers when a local file is uploaded; [None]
      is a failed upload *)
  media : string -> option Asset;
  clock : Z;
  log : list event
}.

Definition record (e : event) (w : World) : World :=
  {| videos := videos w; users := users w; media := media w;
     clock := clock w; log := (log w ++ [e])%list |}.

Definition with_videos (vs : list VideoDoc) (w : World) : World :=
  {| videos := vs; users := users w; media := media w;
     clock := clock w; log := log w |}.

(** ** Handlers as computations: state and exceptions *)

Definition M (A : Type) : Type := World -> outcome A * World.

Definition ret {A} (a : A) : M A := fun w => (Return a, w).

Definition throw {A} (e : exn) : M A := fun w => (Throw e, w).

Definition bind {A B} (c : M A) (k : A -> M B) : M B :=
  fun w =>
    match c w with
    | (Return a, w') => k a w'
    | (Throw e, w') => (Throw e, w')
    end.

Declare Scope handler_scope.
Delimit Scope handler_scope with handler.
Notation "x <- c ;; k" := (bind c (fun x => k))
  (at level 61, c at next level, right associativity) : handler_scope.
Notation "c ;; k" := (bind c (fun _ => k))
  (at level 61, right associativity) : handler_scope.
Open Scope handler_scope.

(** [if (c) throw e;] *)
Definition throw_if (c : bool) (e : exn) : M unit :=
  if c then throw e else ret tt.

Definition emit (e : event) : M unit := fun w => (Return tt, record e w).

(** ** Requests and responses *)

Record Query : Type := {
  page : option string;
  limit : option string;
  query : option string;
  sortBy : option string;
  sortType : option string;
  userId : option string
}.

Record Body : Type := {
  body_title : option string;
  body_description : option string
}.

Record Files : Type := {
  files_videoFile : option (list File);
  files_thumbnail : option (list File)
}.

Record Request : Type := {
  req_query : Query;
  req_body : Body;
  req_videoId : option string;
  req_files : option Files;
  req_user : option User
}.

(** Modelled from the spec: the success envelope built by [ApiResponse]
    ([src/utils/ApiResponse.js] is not among the sources); section 6 gives
    its four fields. *)
Record ApiResponse (D : Type) : Type := {
  statusCode : Z;
  data : D;
  message : string;
  success : bool
}.
Arguments statusCode {D} _.
Arguments data {D} _.
Arguments message {D} _.
Arguments success {D} _.

Definition new_ApiResponse {D} (code : Z) (d : D) (m : string) : ApiResponse D :=
  {| statusCode := code; data := d; message := m; success := code <? 400 |}.

(** [res.status(s).json(body)] *)
Record Response (D : Type) : Type := {
  status : Z;
  json : ApiResponse D
}.
Arguments status {D} _.
Arguments json {D} _.

Definition respond {D} (s : Z) (body : ApiResponse D) : Response D :=
  {| status := s; json := body |}.

(** A destructuring default or an operand of [Number]: a number written in
    the code or a string taken from the request. *)
Inductive jsval : Type :=
| JNum (n : number)
| JStr (s : string).

Definition Number (v : jsval) : number :=
  match v with
  | JNum n => n
  | JStr s => of_string s
  end.

(** [const { x = d } = ...]: the default applies to [undefined] only. *)
Definition or_default (d : number) (o : option string) : jsval :=
  match o with
  | Some s => JStr s
  | None => JNum d
  end.

(** [!s || !s.trim()] on a possibly [undefined] string; comparing
    [s.trim()] with the empty string is the same test as [!s.trim()]. *)
Definition blank (o : option string) : bool :=
  match o with
  | None => true
  | Some s => negb (JsString.truthy s) || negb (JsString.truthy (JsString.trim s))
  end.

(** The text of a string that the guards have shown to be there. *)
Definition text (o : option string) : string :=
  match o with Some s => s | None => EmptyString end.

(** ** The collaborators *)

Section Collaborators.
Context {P : Platform}.

(** Modelled from the spec: [uploadOnCloudinary] ([src/utils/cloudinary.js]
    is not among the sources); section 6: [upload(localPath)] gives the
    asset or no result. *)
Definition uploadOnCloudinary (localPath : string) : M (option Asset) :=
  fun w => (Return (media w localPath), record (Uploaded localPath) w).

(** Modelled from the spec: [deleteFromCloudinary], section 6:
    [delete(url)]; its result is not looked at. *)
Definition deleteFromCloudinary (assetUrl : string) : M unit :=
  emit (Deleted assetUrl).

(** Fields given to [Video.create]. *)
Record NewVideo : Type := {
  new_videoFile : string;
  new_thumbnail : string;
  new_title : string;
  new_description : string;
  new_duration : option number;
  new_owner : option ObjectId
}.

(** Modelled from the spec: [Video.create].  The schema is not among the
    sources; section 3 requires of every stored video non-empty asset
    addresses and an owner, so a document without them is refused.  A new
    video has no views yet and is published. *)
Definition Video_create (n : NewVideo) : M VideoDoc :=
  fun w =>
    match new_owner n with
    | Some o =>
        if JsString.truthy (new_videoFile n) && JsString.truthy (new_thumbnail n) then
          let v := {| _id := generated_id (length (videos w));
                      videoFile := new_videoFile n;
                      thumbnail := new_thumbnail n;
                      title := new_title n;
                      description := new_description n;
                      duration := new_duration n;
                      views := 0;
                      isPublished := true;
                      owner := o;
                      createdAt := clock w |} in
          (Return v, record (Created v) (with_videos (videos w ++ [v])%list w))
        else (Throw (LibraryError "ValidationError" "Video validation failed"), w)
    | None => (Throw (LibraryError "ValidationError" "Video validation failed"), w)
    end.

(** The filter [{ _id: id }] of a query by identifier: the string is cast
    to an identifier first, and a video is selected by the identifier the
    string denotes, not by the spelling of the string. *)
Definition has_id (id : string) (v : VideoDoc) : bool :=
  match cast_ObjectId id with
  | Some o => String.eqb (_id v) o
  | None => false
  end.

Definition cast_error : exn :=
  LibraryError "CastError" "Cast to ObjectId failed".

(** [Video.findById(id)]: [null] for [undefined], a cast error for a
    string that is no identifier. *)
Definition Video_findById (id : option string) : M (option VideoDoc) :=
  fun w =>
    match id with
    | Some s =>
        match cast_ObjectId s with
        | Some _ => (Return (find (has_id s) (videos w)), record (Read id) w)
        | None => (Throw cast_error, w)
        end
    | None => (Return None, record (Read id) w)
    end.

(** Modelled from the spec: the one-argument finders of the Video model
    ([src/models/video.model.js] is not among the sources).  Section 6
    lists what the model exposes: [create], [findById], [findByIdAndUpdate]
    and [aggregate].  Property names are case sensitive, so [findById] is
    the only name under which a finder is found. *)
Definition Video_finder (name : string)
  : option (option string -> M (option VideoDoc)) :=
  if String.eqb name "findById" then Some Video_findById else None.

(** The call [Video.name(id)]: calling a property the model does not have
    throws a TypeError. *)
Definition Video_call (name : string) (id : option string) : M (option VideoDoc) :=
  match Video_finder name with
  | Some finder => finder id
  | None => throw (TypeError ("Video." ++ name ++ " is not a function"))
  end.

Fixpoint update_first (id : string) (f : VideoDoc -> VideoDoc)
         (vs : list VideoDoc) : list VideoDoc :=
  match vs with
  | [] => []
  | v :: r => if has_id id v then f v :: r else v :: update_first id f r
  end.

Definition set_fields (newTitle newDescription newThumbnail : string)
           (v : VideoDoc) : VideoDoc :=
  {| _id := _id v; videoFile := videoFile v; thumbnail := newThumbnail;
     title := newTitle; description := newDescription;
     duration := duration v; views := views v;
     isPublished := isPublished v; owner := owner v;
     createdAt := createdAt v |}.

(** [Video.findByIdAndUpdate(id, { $set: { title, description, thumbnail } },
    { new: true })]: one write, and the document as it is after it; a cast
    error for a string that is no identifier.  [updateVideo] never comes
    here with [undefined], for which [findById] has answered [null]. *)
Definition Video_findByIdAndUpdate (id : option string)
           (newTitle newDescription newThumbnail : string) : M (option VideoDoc) :=
  fun w =>
    match id with
    | Some s =>
        match cast_ObjectId s with
        | Some _ =>
            let vs := update_first s
                        (set_fields newTitle newDescription newThumbnail)
                        (videos w) in
            (Return (find (has_id s) vs),
             record (Updated id newTitle newDescription newThumbnail)
                    (with_videos vs w))
        | None => (Throw cast_error, w)
        end
    | None =>
        (Return None, record (Updated id newTitle newDescription newThumbnail) w)
    end.

Definition collection (w : World) (name : string) : list document :=
  if String.eqb name "users" then map user_document (users w) else [].

(** [Video.aggregate(pipeline)] *)
Definition Video_aggregate (p : pipeline) : M (list document) :=
  fun w =>
    (Engine.run (collection w) p (map video_document (videos w)),
     record (Aggregated p) w).

(** The call [mongoose.Types.ObjectId(v)] *)
Definition mongoose_Types_ObjectId (v : option string) : M ObjectId :=
  match Types_ObjectId v with
  | Some o => ret o
  | None => throw (LibraryError "BSONError" "input is not an identifier")
  end.

(** [new RegExp(source, flags)] *)
Definition new_RegExp (src fl : string) : M RegExp :=
  if regexp_accepts src fl then ret {| source := src; flags := fl |}
  else throw (LibraryError "SyntaxError" "Invalid regular expression").

End Collaborators.

(** ** The handlers *)

Section Handlers.
Context {P : Platform}.

(** The listing pipeline, as [getAllVideos] writes it. *)
Definition listing_pipeline (ownerId : ObjectId) (titleRegex : RegExp)
           (sortBy : option string) (sortType : option string)
           (startIndex limitNum : number) : pipeline :=
  [ Match ownerId true titleRegex;
    Lookup "users" "owner" "_id" "ownerInfo";
    AddFieldsFirst "ownerInfo" "$ownerInfo";
    (* a computed key [[sortBy]] of [undefined] is the name "undefined" *)
    Sort (match sortBy with Some k => k | None => "undefined" end)
         (match sortType with
          | Some t => if String.eqb t "desc" then -1 else 1
          | None => 1
          end);
    Skip startIndex;
    Limit limitNum;
    Project ["_id"; "title"; "videoFile"; "thumbnail"; "views"; "duration";
             "createdAt"; "owner"]
            [("ownerName", "$ownerInfo.fullName");
             ("ownerAvatar", "$ownerInfo.avatar")] ].

Definition getAllVideos (req : Request) : M (Response (list document)) :=
  let page := or_default (of_Z 1) (page (req_query req)) in
  let limit := or_default (of_Z 10) (limit (req_query req)) in
  let query := query (req_query req) in
  let sortBy := sortBy (req_query req) in
  let sortType := sortType (req_query req) in
  let userId := userId (req_query req) in
  let pageNum := Number page in
  let limitNum := Number limit in
  throw_if (negb (isFinite pageNum) || lt pageNum (of_Z 1))
           (ApiError 400 "Page should be a positive integer") ;;
  throw_if (negb (isFinite limitNum) || lt limitNum (of_Z 1))
           (ApiError 400 "Video limit should be a positive integer") ;;
  throw_if (blank query) (ApiError 400 "Query is required") ;;
  throw_if (JsString.truthy_opt userId && negb (isValidObjectId userId))
           (ApiError 400 "Please provide a valid user id") ;;
  let startIndex := mul (sub pageNum (of_Z 1)) limitNum in
  ownerId <- mongoose_Types_ObjectId userId ;;
  titleRegex <- new_RegExp (JsString.trim (text query)) "i" ;;
  allVideos <- Video_aggregate
                 (listing_pipeline ownerId titleRegex sortBy sortType
                                   startIndex limitNum) ;;
  ret (respond 200
         (new_ApiResponse 200 allVideos "All videos fetched successfully")).

(** [files?.field[0]?.path]: [undefined] when there are no files at all or
    the array is empty, a TypeError when the files are there and the field
    is not. *)
Definition first_path (files : option Files)
           (field : Files -> option (list File)) : M (option string) :=
  match files with
  | None => ret None
  | Some fs =>
      match field fs with
      | None => throw (TypeError "Cannot read properties of undefined (reading '0')")
      | Some [] => ret None
      | Some (f :: _) => ret (Some (path f))
      end
  end.

Definition publishAVideo (req : Request) : M (Response VideoDoc) :=
  let title := body_title (req_body req) in
  let description := body_description (req_body req) in
  videoFileLocalPath <- first_path (req_files req) files_videoFile ;;
  thumbnailLocalPath <- first_path (req_files req) files_thumbnail ;;
  throw_if (blank title || blank description)
           (ApiError 400 "Tilte and description are required fields") ;;
  throw_if (negb (JsString.truthy_opt videoFileLocalPath
                  && JsString.truthy_opt thumbnailLocalPath))
           (ApiError 400 "no video file or thumbnail detected") ;;
  videoFile <- uploadOnCloudinary (text videoFileLocalPath) ;;
  thumbnail <- uploadOnCloudinary (text thumbnailLocalPath) ;;
  match videoFile, thumbnail with
  | Some videoFile, Some thumbnail =>
      let user := option_map user_id (req_user req) in
      videoToUpload <- Video_create
                         {| new_videoFile := url videoFile;
                            new_thumbnail := url thumbnail;
                            new_title := text title;
                            new_description := text description;
                            new_duration := asset_duration videoFile;
                            new_owner := user |} ;;
      uploadedVideo <- Video_call "findbyId" (Some (_id videoToUpload)) ;;
      match uploadedVideo with
      | None =>
          throw (ApiError 500 "something went wrong while uploading the video")
      | Some uploadedVideo =>
          ret (respond 200
                 (new_ApiResponse 200 uploadedVideo "Video Uploaded successfully"))
      end
  | _, _ =>
      throw (ApiError 500
               "Something went wrong while uploading the video or thumbnail")
  end.

Definition getVideoById (req : Request) : M (Response VideoDoc) :=
  let videoId := req_videoId req in
  throw_if (negb (JsString.truthy_opt videoId))
           (ApiError 400 "There is no such video") ;;
  video <- Video_call "findbyId" videoId ;;
  match video with
  | None => throw (ApiError 400 "No video found")
  | Some video =>
      ret (respond 200
             (new_ApiResponse 200 video "Video Found and fetched successfully"))
  end.

(** [req.user?._id.toString() !== video.owner.toString()]: without a user
    the left side is [undefined], which no string equals. *)
Definition not_owner (user : option User) (video : VideoDoc) : bool :=
  match user with
  | Some u => negb (String.eqb (user_id u) (owner video))
  | None => true
  end.

Definition updateVideo (req : Request) : M (Response (option VideoDoc)) :=
  let videoId := req_videoId req in
  throw_if (negb (isValidObjectId videoId)) (ApiError 400 "Invalid video ID") ;;
  let title := body_title (req_body req) in
  let description := body_description (req_body req) in
  thumbnailLocalPath <- first_path (req_files req) files_thumbnail ;;
  throw_if (negb (JsString.truthy_opt thumbnailLocalPath))
           (ApiError 400 "No thumbnail file detected") ;;
  throw_if (blank title || blank description)
           (ApiError 400 "Title and description are required fields") ;;
  video <- Video_findById videoId ;;
  match video with
  | None => throw (ApiError 404 "Video not found")
  | Some video =>
      throw_if (not_owner (req_user req) video)
               (ApiError 403 "You are not authorized to update this video") ;;
      let oldThumbnail := thumbnail video in
      thumbnail <- uploadOnCloudinary (text thumbnailLocalPath) ;;
      match thumbnail with
      | None => throw (ApiError 500 "Failed to upload the new thumbnail")
      | Some thumbnail =>
          updatedVideo <- Video_findByIdAndUpdate videoId (text title)
                            (text description) (url thumbnail) ;;
          (if JsString.truthy oldThumbnail
           then deleteFromCloudinary oldThumbnail
           else ret tt) ;;
          ret (respond 200
                 (new_ApiResponse 200 updatedVideo
                                  "The video is updated successfully"))
      end
  end.

(** [deleteVideo] and [togglePublishStatus] take the identifier from the
    request and end there: nothing is asked of the database or the media
    store and nothing is sent on [res]. *)
Definition deleteVideo (req : Request) : M unit :=
  let videoId := req_videoId req in
  ret tt.

Definition togglePublishStatus (req : Request) : M unit :=
  let videoId := req_videoId req in
  ret tt.

End Handlers.

(** ** The routes of the user router

    The second source part is the router of the user endpoints: a table
    that gives, for a path and a method, the middleware to run in order
    and the controller that ends the chain.  The middleware and the
    controllers are imported; the table and the order of each chain are
    what this file decides. *)

Module UserRoutes.

Inductive verb : Type := GET | POST | PATCH.

Inductive middleware : Type :=
| upload_fields (fields : list (string * Z))   (* upload.fields([{name, maxCount}]) *)
| upload_single (field : string)               (* upload.single(name) *)
| verifyJWT.

Inductive controller : Type :=
| registerUser | loginUser | logoutUser | refreshAccessToken
| changeCurrentPassword | currentUser | updateAccountDetails
| upadateUserAvatar | updateUserCoverImage
| getUserChannelProfile | getWatchHistory.

Record route : Type := {
  pattern : string;
  method : verb;
  chain : list middleware;
  handler : controller
}.

(** [router.route(pattern).method(...chain, handler)], in source order. *)
Definition router : list route :=
  [ {| pattern := "/register"; method := POST;
       chain := [upload_fields [("avatar", 1); ("coverImage", 1)]];
       handler := registerUser |};
    {| pattern := "/login"; method := POST; chain := [];
       handler := loginUser |};
    {| pattern := "/logout"; method := POST; chain := [verifyJWT];
       handler := logoutUser |};
    {| pattern := "/refresh-token"; method := POST; chain := [];
       handler := refreshAccessToken |};
    {| pattern := "/change-password"; method := POST; chain := [verifyJWT];
       handler := changeCurrentPassword |};
    {| pattern := "/current-user"; method := POST; chain := [verifyJWT];
       handler := currentUser |};
    {| pattern := "/update-account"; method := PATCH; chain := [];
       handler := updateAccountDetails |};
    {| pattern := "/update-user-avatar"; method := PATCH;
       chain := [verifyJWT; upload_single "avatar"];
       handler := upadateUserAvatar |};
    {| pattern := "/update-user-coverImage"; method := PATCH;
       chain := [verifyJWT; upload_single "coverImage"];
       handler := updateUserCoverImage |};
    {| pattern := "/c/:username"; method := GET; chain := [verifyJWT];
       handler := getUserChannelProfile |};
    {| pattern := "/history"; method := GET; chain := [verifyJWT];
       handler := getWatchHistory |} ].

Definition verb_eqb (a b : verb) : bool :=
  match a, b with
  | GET, GET | POST, POST | PATCH, PATCH => true
  | _, _ => false
  end.

(** The route registered for a method under a pattern: the first one in
    the table. *)
Definition route_for (m : verb) (p : string) : option route :=
  find (fun r => String.eqb (pattern r) p && verb_eqb (method r) m) router.

(** The middleware of a chain that get to run, in order, when [passes]
    tells which of them call [next()]; the flag says whether the end of
    the chain is reached. *)
Fixpoint run_chain (passes : middleware -> bool) (c : list middleware)
  : list middleware * bool :=
  match c with
  | [] => ([], true)
  | m :: rest =>
      if passes m then
        let (ran, through) := run_chain passes rest in (m :: ran, through)
      else ([m], false)
  end.

(** What a request for method [m] on pattern [p] sets off: the middleware
    that run and the controller, when the chain lets it be reached. *)
Definition serve (passes : middleware -> bool) (m : verb) (p : string)
  : list middleware * option controller :=
  match route_for m p with
  | Some r =>
      let (ran, through) := run_chain passes (chain r) in
      (ran, if through then Some (handler r) else None)
  | None => ([], None)
  end.

Definition is_upload (m : middleware) : bool :=
  match m with
  | upload_fields _ | upload_single _ => true
  | verifyJWT => false
  end.

Example serve_avatar_without_token :
  serve (fun m => is_upload m) PATCH "/update-user-avatar" = ([verifyJWT], None).
Proof. reflexivity. Qed.

End UserRoutes.

(** ** A reference platform

    One platform the handlers can run on, used to evaluate them on concrete
    requests: identifiers are the strings of 24 hexadecimal digits, regular
    expressions are the patterns without metacharacters, and values are
    ordered by type first (null, numbers, strings, documents, arrays,
    identifiers, booleans, dates) and by content within a scalar type. *)

Module Reference.

Definition is_hex (c : ascii) : bool :=
  match digit_in 16 c with Some _ => true | None => false end.

Fixpoint all_chars (p : ascii -> bool) (s : string) : bool :=
  match s with
  | EmptyString => true
  | String c r => p c && all_chars p r
  end.

Definition hex24 (s : string) : bool :=
  (String.length s =? 24)%nat && all_chars is_hex s.

Definition isValidObjectId (v : option string) : bool :=
  match v with Some s => hex24 s | None => false end.

Definition lower_char (c : ascii) : ascii :=
  let n := nat_of_ascii c in
  if ((65 <=? n) && (n <=? 90))%nat then ascii_of_nat (n + 32) else c.

Fixpoint lower (s : string) : string :=
  match s with
  | EmptyString => EmptyString
  | String c r => String (lower_char c) (lower r)
  end.

(** An identifier is kept as its 24 digits in lower case, which is how it
    prints. *)
Definition cast_ObjectId (s : string) : option ObjectId :=
  if hex24 s then Some (lower s) else None.

Definition Types_ObjectId (v : option string) : option ObjectId :=
  match v with
  | None => Some "65f000000000000000000000"
  | Some s => cast_ObjectId s
  end.

Definition hex_char (n : N) : ascii :=
  ascii_of_N (if (n <? 10)%N then 48 + n else 87 + n)%N.

Fixpoint fixed_hex (width : nat) (n : N) : string :=
  match width with
  | O => EmptyString
  | S k => fixed_hex k (n / 16)%N ++ String (hex_char (n mod 16)%N) EmptyString
  end.

Definition generated_id (n : nat) : ObjectId :=
  "65f1" ++ fixed_hex 20 (N.of_nat n).

Definition plain_char (c : ascii) : bool :=
  let n := nat_of_ascii c in
  (((48 <=? n) && (n <=? 57)) || ((65 <=? n) && (n <=? 90))
   || ((97 <=? n) && (n <=? 122)) || (n =? 32))%nat.

Definition regexp_accepts (src fl : string) : bool :=
  all_chars plain_char src && (String.eqb fl "i" || String.eqb fl EmptyString).

Fixpoint contains (needle hay : string) : bool :=
  prefix needle hay
  || match hay with
     | EmptyString => false
     | String _ r => contains needle r
     end.

Definition regexp_test (re : RegExp) (s : string) : bool :=
  if String.eqb (flags re) "i" then contains (lower (source re)) (lower s)
  else contains (source re) s.

(** A pattern without metacharacters reads the same in both dialects. *)
Definition regex_supported (re : RegExp) : bool :=
  regexp_accepts (source re) (flags re).

(** The components of a field path are not empty and the path does not
    start with [$]. *)
Fixpoint no_empty_component (at_start : bool) (s : string) : bool :=
  match s with
  | EmptyString => negb at_start
  | String c r =>
      if Ascii.eqb c "."%char then negb at_start && no_empty_component true r
      else no_empty_component false r
  end.

Definition sort_key_accepted (s : string) : bool :=
  no_empty_component true s && negb (prefix "$" s).

Definition type_rank (v : value) : Z :=
  match v with
  | Null => 1 | Num _ => 2 | Str _ => 3 | Doc _ => 4
  | Arr _ => 5 | Oid _ => 7 | Bool _ => 8 | Date _ => 9
  end.

Definition number_leb (a b : number) : bool :=
  match a, b with
  | NaN, _ => true
  | _, NaN => false
  | Infinity true, _ => true
  | _, Infinity true => false
  | _, Infinity false => true
  | Infinity false, _ => false
  | Finite x, Finite y => Qle_bool x y
  end.

Definition string_leb (a b : string) : bool :=
  match String_as_OT.compare a b with Gt => false | _ => true end.

Definition value_leb (a b : value) : bool :=
  match a, b with
  | Num x, Num y => number_leb x y
  | Str x, Str y => string_leb x y
  | Oid x, Oid y => string_leb x y
  | Bool x, Bool y => implb x y
  | Date x, Date y => x <=? y
  | _, _ => type_rank a <=? type_rank b
  end.

Example generated_id_3 : generated_id 3 = "65f100000000000000000003".
Proof. reflexivity. Qed.
Example sort_keys :
  map sort_key_accepted
      [EmptyString; "$views"; "owner..name"; "views."; "views"; "owner.name";
       "undefined"]
  = [false; false; false; false; true; true; true].
Proof. reflexivity. Qed.
Example regexp_test_cat :
  regexp_test {| source := "cat"; flags := "i" |} "Two Cats" = true.
Proof. reflexivity. Qed.
Example value_leb_mixed : value_leb (Num (of_Z 7)) (Str "a") = true.
Proof. reflexivity. Qed.

End Reference.

(** ** Sample data *)

Module Sample.

Definition alice : User :=
  {| user_id := "65f0000000000000000000a1"; fullName := "Alice";
     username := "alice"; avatar := "http://media/alice.png" |}.

Definition bob : User :=
  {| user_id := "65f0000000000000000000b2"; fullName := "Bob";
     username := "bob"; avatar := "http://media/bob.png" |}.

Definition clip (n : N) (name : string) (seen : Z) (published : bool)
           (by_ : User) : VideoDoc :=
  {| _id := "65f1" ++ Reference.fixed_hex 20 n;
     videoFile := "http://media/" ++ name ++ ".mp4";
     thumbnail := "http://media/" ++ name ++ ".png";
     title := name;
     description := "about " ++ name;
     duration := Some (of_Z 60);
     views := seen;
     isPublished := published;
     owner := user_id by_;
     createdAt := 1700000000000 + Z.of_N n |}.

(** What the media store answers: files under [/tmp/] upload, a video
    gets a duration, anything else fails. *)
Definition store (localPath : string) : option Asset :=
  if prefix "/tmp/" localPath then
    Some {| url := "http://media" ++ substring 4 (String.length localPath) localPath;
            asset_duration :=
              if prefix "/tmp/v" localPath then Some (Finite (25 # 2)) else None |}
  else None.

Definition world : World :=
  {| videos := [ clip 0 "Cat naps" 40 true alice;
                 clip 1 "Dog walks" 90 true alice;
                 clip 2 "cat tricks" 10 true alice;
                 clip 3 "My cat" 30 true bob;
                 clip 4 "Tomcat" 20 true alice;
                 clip 5 "Secret cat" 5 false alice ];
     users := [alice; bob];
     media := store;
     clock := 1700000500000;
     log := [] |}.

Definition no_query : Query :=
  {| page := None; limit := None; query := None;
     sortBy := None; sortType := None; userId := None |}.

Definition no_body : Body := {| body_title := None; body_description := None |}.

Definition request : Request :=
  {| req_query := no_query; req_body := no_body; req_videoId := None;
     req_files := None; req_user := None |}.

Definition listing (p l : option string) (q by_ along who : option string) : Request :=
  {| req_query := {| page := p; limit := l; query := q;
                     sortBy := by_; sortType := along; userId := who |};
     req_body := no_body; req_videoId := None;
     req_files := None; req_user := None |}.

Definition upload (local : string) : option (list File) :=
  Some [ {| path := local |} ].

(** A create request by [who] with the two files at the given paths. *)
Definition publishing (name about : option string)
           (video thumb : option (list File)) (who : option User) : Request :=
  {| req_query := no_query;
     req_body := {| body_title := name; body_description := about |};
     req_videoId := None;
     req_files := Some {| files_videoFile := video; files_thumbnail := thumb |};
     req_user := who |}.

Definition retrieval (id : option string) : Request :=
  {| req_query := no_query; req_body := no_body; req_videoId := id;
     req_files := None; req_user := None |}.

(** An update request by [who] on the video [id]. *)
Definition updating (id : option string) (name about : option string)
           (thumb : option (list File)) (who : option User) : Request :=
  {| req_query := no_query;
     req_body := {| body_title := name; body_description := about |};
     req_videoId := id;
     req_files := Some {| files_videoFile := None; files_thumbnail := thumb |};
     req_user := who |}.

Definition cat_naps_id : string := "65f100000000000000000000".

Definition alice_id : option string := Some (user_id alice).

(** [?page=2&limit=2&query=%20cat%20&sortBy=views&userId=<alice>] *)
Definition second_page : Request :=
  listing (Some "2") (Some "2") (Some " cat ") (Some "views") None alice_id.

(** [?query=cat] *)
Definition anyones : Request := listing None None (Some "cat") None None None.

(** [?page=1&limit=2&query=cat&sortBy=views&sortType=desc&userId=<alice>] *)
Definition most_viewed : Request :=
  listing (Some "1") (Some "2") (Some "cat") (Some "views") (Some "desc") alice_id.

(** [?page=1.5&limit=2&query=cat&sortBy=views&userId=<alice>] *)
Definition page_and_a_half : Request :=
  listing (Some "1.5") (Some "2") (Some "cat") (Some "views") None alice_id.

(** Alice publishes a video; both files are where the store reads them. *)
Definition kitten : Request :=
  publishing (Some "Kitten") (Some "a kitten")
             (upload "/tmp/v1.mp4") (upload "/tmp/t1.png") (Some alice).

(** The same, with the video file out of the store's reach. *)
Definition lost_kitten : Request :=
  publishing (Some "Kitten") (Some "a kitten")
             (upload "/var/v1.mp4") (upload "/tmp/t1.png") (Some alice).

(** The same, without a [videoFile] field among the files. *)
Definition no_kitten : Request :=
  publishing (Some "Kitten") (Some "a kitten") None (upload "/tmp/t1.png")
             (Some alice).

(** Bob updates a video of Alice, with valid input. *)
Definition theft : Request :=
  updating (Some cat_naps_id) (Some "Mine now") (Some "stolen")
           (upload "/tmp/t2.png") (Some bob).

(** Alice updates her video. *)
Definition sequel : Request :=
  updating (Some cat_naps_id) (Some "Cat naps II") (Some "more naps")
           (upload "/tmp/t2.png") (Some alice).

(** The same, without a [thumbnail] field among the files. *)
Definition bare_sequel : Request :=
  updating (Some cat_naps_id) (Some "Cat naps II") (Some "more naps") None
           (Some alice).

(** The same again, on an identifier that is none. *)
Definition bare_sequel_of_nothing : Request :=
  updating (Some "not-an-id") (Some "Cat naps II") (Some "more naps") None
           (Some alice).

Definition cat_naps : VideoDoc := clip 0 "Cat naps" 40 true alice.

(** [?page=1&limit=2&query=%20cat%20&sortBy=views&userId=<alice>] *)
Definition first_page : Request :=
  listing (Some "1") (Some "2") (Some " cat ") (Some "views") None alice_id.

(** [?page=0&limit=ten&query=cat] *)
Definition page_zero : Request :=
  listing (Some "0") (Some "ten") (Some "cat") None None None.


(** Alice's update, sent without any file. *)
Definition sequel_without_files : Request :=
  {| req_query := no_query;
     req_body := {| body_title := Some "Cat naps II";
                    body_description := Some "more naps" |};
     req_videoId := Some cat_naps_id;
     req_files := None;
     req_user := Some alice |}.

(** Alice's update of a video that is not stored. *)
Definition sequel_of_nothing : Request :=
  updating (Some "65f1000000000000000000ff") (Some "Cat naps II")
           (Some "more naps") (upload "/tmp/t2.png") (Some alice).

(** Alice's update, with the thumbnail out of the store's reach. *)
Definition lost_sequel : Request :=
  updating (Some cat_naps_id) (Some "Cat naps II") (Some "more naps")
           (upload "/var/t2.png") (Some alice).

(** Alice's update, with a thumbnail the store files under the address
    the video already has. *)
Definition same_picture : Request :=
  updating (Some cat_naps_id) (Some "Cat naps II") (Some "more naps")
           (upload "/tmp/Cat naps.png") (Some alice).

(** A create request with a title and without files. *)
Definition kitten_without_files : Request :=
  {| req_query := no_query;
     req_body := {| body_title := Some "Kitten";
                    body_description := Some "a kitten" |};
     req_videoId := None;
     req_files := None;
     req_user := Some alice |}.

Definition dog_walks_id : string := "65f100000000000000000001".

End Sample.

(** ** Vocabulary of the properties *)

Section Vocabulary.
Context {P : Platform}.

(** The request carries, under [field], a first file whose path is the
    non-empty string [p]. *)
Definition sends_file (req : Request) (field : Files -> option (list File))
           (p : string) : Prop :=
  exists fs f rest,
    req_files req = Some fs /\ field fs = Some (f :: rest)
    /\ path f = p /\ JsString.truthy p = true.

(** The request passes every check [publishAVideo] makes before it uploads
    the two files at [videoPath] and [thumbnailPath]. *)
Definition publishable (req : Request) (videoPath thumbnailPath : string) : Prop :=
  blank (body_title (req_body req)) = false
  /\ blank (body_description (req_body req)) = false
  /\ sends_file req files_videoFile videoPath
  /\ sends_file req files_thumbnail thumbnailPath.

(** What [publishAVideo] does once both uploads have given an asset. *)
Definition persist_and_reread (req : Request) (videoFile thumbnail : Asset)
  : M (Response VideoDoc) :=
  videoToUpload <- Video_create
    {| new_videoFile := url videoFile;
       new_thumbnail := url thumbnail;
       new_title := text (body_title (req_body req));
       new_description := text (body_description (req_body req));
       new_duration := asset_duration videoFile;
       new_owner := option_map user_id (req_user req) |} ;;
  uploadedVideo <- Video_call "findbyId" (Some (_id videoToUpload)) ;;
  match uploadedVideo with
  | None => throw (ApiError 500 "something went wrong while uploading the video")
  | Some uploadedVideo =>
      ret (respond 200
             (new_ApiResponse 200 uploadedVideo "Video Uploaded successfully"))
  end.

(** The request passes the checks [updateVideo] makes before it reads the
    video, with [p] the path of the new thumbnail. *)
Definition updatable (req : Request) (p : string) : Prop :=
  isValidObjectId (req_videoId req) = true
  /\ sends_file req files_thumbnail p
  /\ blank (body_title (req_body req)) = false
  /\ blank (body_description (req_body req)) = false.

(** [pageNum] and [limitNum] of [getAllVideos]. *)
Definition pageNum (req : Request) : number :=
  Number (or_default (of_Z 1) (page (req_query req))).

Definition limitNum (req : Request) : number :=
  Number (or_default (of_Z 10) (limit (req_query req))).

(** The four guards of [getAllVideos], in one condition. *)
Definition rejected (req : Request) : bool :=
  (negb (isFinite (pageNum req)) || lt (pageNum req) (of_Z 1))
  || (negb (isFinite (limitNum req)) || lt (limitNum req) (of_Z 1))
  || blank (query (req_query req))
  || (JsString.truthy_opt (userId (req_query req))
      && negb (isValidObjectId (userId (req_query req)))).

(** The regular expression [getAllVideos] makes of the query. *)
Definition title_regex (req : Request) : RegExp :=
  {| source := JsString.trim (text (query (req_query req))); flags := "i" |}.

(** The pipeline a request gives to the database once [ownerId] has been
    made from its [userId]. *)
Definition issued_pipeline (req : Request) (ownerId : ObjectId) : pipeline :=
  listing_pipeline ownerId (title_regex req)
                   (sortBy (req_query req)) (sortType (req_query req))
                   (mul (sub (pageNum req) (of_Z 1)) (limitNum req))
                   (limitNum req).

(** The key and the direction of the [$sort] stage of the listing. *)
Definition sort_key (sortBy : option string) : string :=
  match sortBy with Some k => k | None => "undefined" end.

Definition is_desc (sortType : option string) : bool :=
  match sortType with Some t => String.eqb t "desc" | None => false end.

(** The order the [$sort] stage of the listing sorts by. *)
Definition sort_order (sortBy sortType : option string)
  : document -> document -> bool :=
  if is_desc sortType then Engine.descending (sort_key sortBy)
  else Engine.ascending (sort_key sortBy).

(** The matching records, joined with their owner and sorted: what reaches
    the [$skip] stage. *)
Definition ranked (foreign docs : list document) (ownerId : ObjectId)
           (re : RegExp) (sortBy sortType : option string) : list document :=
  Engine.sort (sort_order sortBy sortType)
    (map (Engine.add_first "ownerInfo" "$ownerInfo")
       (map (Engine.lookup foreign "owner" "_id" "ownerInfo")
          (filter (Engine.matches ownerId true re) docs))).

(** The same, for the videos and users of a world. *)
Definition ranked_matches (w : World) (req : Request) (ownerId : ObjectId)
  : list document :=
  ranked (collection w "users") (map video_document (videos w)) ownerId
         (title_regex req) (sortBy (req_query req)) (sortType (req_query req)).

(** The [$project] stage of the listing, on one document. *)
Definition listed : document -> document :=
  Engine.project
    ["_id"; "title"; "videoFile"; "thumbnail"; "views"; "duration";
     "createdAt"; "owner"]
    [("ownerName", "$ownerInfo.fullName"); ("ownerAvatar", "$ownerInfo.avatar")].

(** A request that passes validation with a page number [p] and a page
    size [l], both integers from 1 on, whose [userId] makes an identifier
    and whose query makes a regular expression.  The start index
    [(p - 1) * l] is at most [2 ^ 53], so that the handler computes it
    without rounding, and the engine takes [l] as a count, the regular
    expression and the sort key. *)
Definition listable (req : Request) (p l : Z) (ownerId : ObjectId) : Prop :=
  to_Z (pageNum req) = Some p /\ 1 <= p
  /\ to_Z (limitNum req) = Some l /\ 1 <= l
  /\ blank (query (req_query req)) = false
  /\ (JsString.truthy_opt (userId (req_query req)) = true ->
      isValidObjectId (userId (req_query req)) = true)
  /\ Types_ObjectId (userId (req_query req)) = Some ownerId
  /\ regexp_accepts (source (title_regex req)) "i" = true
  /\ (p - 1) * l <= 2 ^ 53
  /\ l <= Engine.max_long
  /\ regex_supported (title_regex req) = true
  /\ sort_key_accepted (sort_key (sortBy (req_query req))) = true.

(** The owner sub-document every row of one listing carries. *)
Definition owner_info (foreign : list document) (o : ObjectId) : option value :=
  Engine.first_of (Some (Arr (Engine.joined foreign "_id" (Some (Oid o))))).

(** A row as it leaves the join: its owner is [o] and its [ownerInfo] is
    the sub-document of [o]. *)
Definition joined_row (foreign : list document) (o : ObjectId) (d : document) : Prop :=
  get "owner" d = Some (Oid o) /\ get "ownerInfo" d = owner_info foreign o.

(** The fields the projection of the listing keeps. *)
Definition included (k : string) : bool :=
  existsb (String.eqb k)
    ["_id"; "title"; "videoFile"; "thumbnail"; "views"; "duration";
     "createdAt"; "owner"].

(** The computed fields of the projection depend on [ownerInfo] only. *)
Definition computed_fields (info : option value) : document :=
  (opt_field "ownerName"
     (match info with Some v => resolve ["fullName"] v | None => None end)
   ++ opt_field "ownerAvatar"
        (match info with Some v => resolve ["avatar"] v | None => None end))%list.

(** The values at [key] do not go down, or do not go up, along the rows,
    in the comparison order of the platform. *)
Definition nondecreasing (key : string) (rows : list document) : Prop :=
  StronglySorted
    (fun a b => value_leb (sort_value key a) (sort_value key b) = true) rows.

Definition nonincreasing (key : string) (rows : list document) : Prop :=
  StronglySorted
    (fun a b => value_leb (sort_value key b) (sort_value key a) = true) rows.

(** The test of the first two guards of [getAllVideos] on a number. *)
Definition bad_number (n : number) : bool :=
  negb (isFinite n) || lt n (of_Z 1).

(** A stored video the [$match] stage of the listing lets through. *)
Definition is_match (ownerId : ObjectId) (re : RegExp) (v : VideoDoc) : bool :=
  String.eqb (owner v) ownerId && Bool.eqb (isPublished v) true
  && regexp_test re (title v).

(** The user the [$lookup] stage of the listing finds for an owner. *)
Definition owner_of (w : World) (ownerId : ObjectId) : option User :=
  find (fun u => String.eqb ownerId (user_id u)) (users w).

(** Reading the first path under [field] does not throw: there are no
    files at all, or the field is there. *)
Definition field_readable (req : Request) (field : Files -> option (list File))
  : Prop :=
  forall fs, req_files req = Some fs -> field fs <> None.

(** The path [req.files?.field[0]?.path], where reading it does not throw. *)
Definition path_under (req : Request) (field : Files -> option (list File))
  : option string :=
  match req_files req with
  | Some fs =>
      match field fs with
      | Some (f :: _) => Some (path f)
      | _ => None
      end
  | None => None
  end.

(** Two strings that denote the same identifier. *)
Definition same_id (a b : string) : Prop :=
  exists o, cast_ObjectId a = Some o /\ cast_ObjectId b = Some o.

(** What [updateVideo] writes into a video. *)
Definition updated_by (req : Request) (asset : Asset) (v : VideoDoc) : VideoDoc :=
  set_fields (text (body_title (req_body req)))
             (text (body_description (req_body req))) (url asset) v.

(** The row a stored video is listed as: joined with its owner, then
    projected. *)
Definition listed_video (w : World) (v : VideoDoc) : document :=
  listed
    (Engine.add_first "ownerInfo" "$ownerInfo"
       (Engine.lookup (collection w "users") "owner" "_id" "ownerInfo"
          (video_document v))).

(** The stored videos a listing matches, each joined with its owner: the
    rows that reach the [$sort] stage, in some order. *)
Definition joined_matches (w : World) (req : Request) (ownerId : ObjectId)
  : list document :=
  map (fun v =>
         Engine.add_first "ownerInfo" "$ownerInfo"
           (Engine.lookup (collection w "users") "owner" "_id" "ownerInfo"
              (video_document v)))
      (filter (is_match ownerId (title_regex req)) (videos w)).

(** No two of the rows that differ have the same value at the sort key:
    there is one way to sort them. *)
Definition distinct_keys (key : string) (rows : list document) : Prop :=
  forall a b, In a rows -> In b rows ->
    value_leb (sort_value key a) (sort_value key b) = true ->
    value_leb (sort_value key b) (sort_value key a) = true -> a = b.

(** The rows are in the order a [$sort] stage of the listing leaves them
    in. *)
Definition sorted_by (sortBy sortType : option string) (rows : list document)
  : Prop :=
  StronglySorted (fun a b => sort_order sortBy sortType a b = true) rows.

(** Two requests that differ in the page number at most. *)
Definition same_listing (a b : Request) : Prop :=
  limit (req_query a) = limit (req_query b)
  /\ query (req_query a) = query (req_query b)
  /\ sortBy (req_query a) = sortBy (req_query b)
  /\ sortType (req_query a) = sortType (req_query b)
  /\ userId (req_query a) = userId (req_query b).

End Vocabulary.

(** * Properties *)

(** ** The reference platform is a platform *)

Module ReferenceLaws.
Import Reference.

Lemma number_leb_total (a b : number) :
  number_leb a b = true \/ number_leb b a = true.
Proof.
  destruct a as [|[]|x], b as [|[]|y]; simpl; auto.
  rewrite !Qle_bool_iff.
  destruct (Qlt_le_dec x y) as [H|H]; [left; apply Qlt_le_weak, H | right; exact H].
Qed.

Lemma number_leb_trans (a b c : number) :
  number_leb a b = true -> number_leb b c = true -> number_leb a c = true.
Proof.
  destruct a as [|[]|x], b as [|[]|y], c as [|[]|z]; simpl;
    try reflexivity; try discriminate.
  rewrite !Qle_bool_iff. apply Qle_trans.
Qed.

Lemma string_leb_total (a b : string) :
  string_leb a b = true \/ string_leb b a = true.
Proof.
  unfold string_leb.
  destruct (String_as_OT.compare_spec a b) as [E|L|G]; auto.
  right. unfold String_as_OT.lt in G. now rewrite G.
Qed.

Lemma string_leb_trans (a b c : string) :
  string_leb a b = true -> string_leb b c = true -> string_leb a c = true.
Proof.
  unfold string_leb.
  destruct (String_as_OT.compare_spec a b) as [E1|L1|G1]; try discriminate;
    destruct (String_as_OT.compare_spec b c) as [E2|L2|G2]; try discriminate;
    intros _ _; unfold String_as_OT.eq in *; subst.
  - destruct (String_as_OT.compare_spec c c) as [E|L|G]; try reflexivity.
    exfalso. exact (StrictOrder_Irreflexive (R := String_as_OT.lt) c G).
  - unfold String_as_OT.lt in L2. now rewrite L2.
  - unfold String_as_OT.lt in L1. now rewrite L1.
  - assert (L : String_as_OT.lt a c)
      by (eapply (StrictOrder_Transitive (R := String_as_OT.lt)); eauto).
    unfold String_as_OT.lt in L. now rewrite L.
Qed.

Lemma value_leb_total (a b : value) :
  value_leb a b = true \/ value_leb b a = true.
Proof.
  destruct a, b; simpl; auto using number_leb_total, string_leb_total.
  - destruct b, b0; auto.
  - destruct (Z.leb_spec ms ms0); [auto | right; apply Z.leb_le; lia].
Qed.

Lemma value_leb_trans (a b c : value) :
  value_leb a b = true -> value_leb b c = true -> value_leb a c = true.
Proof.
  destruct a, b, c; simpl; try reflexivity; try discriminate;
    eauto using number_leb_trans, string_leb_trans.
  - destruct b, b0, b1; simpl; congruence.
  - rewrite !Z.leb_le. lia.
Qed.

End ReferenceLaws.

#[export] Instance reference : Platform := {
  isValidObjectId := Reference.isValidObjectId;
  Types_ObjectId := Reference.Types_ObjectId;
  cast_ObjectId := Reference.cast_ObjectId;
  generated_id := Reference.generated_id;
  regexp_accepts := Reference.regexp_accepts;
  regexp_test := Reference.regexp_test;
  regex_supported := Reference.regex_supported;
  sort_key_accepted := Reference.sort_key_accepted;
  value_leb := Reference.value_leb;
  value_leb_total := ReferenceLaws.value_leb_total;
  value_leb_trans := ReferenceLaws.value_leb_trans
}.

(** ** Running a handler *)

Section Running.
Context {P : Platform}.

Lemma bind_ret {A B} (a : A) (k : A -> M B) (w : World) :
  bind (ret a) k w = k a w.
Proof. reflexivity. Qed.

Lemma bind_pass {B} (c : bool) (e : exn) (k : unit -> M B) (w : World) :
  c = false -> bind (throw_if c e) k w = k tt w.
Proof. intros ->. reflexivity. Qed.

Lemma bind_stop {B} (c : bool) (e : exn) (k : unit -> M B) (w : World) :
  c = true -> bind (throw_if c e) k w = (Throw e, w).
Proof. intros ->. reflexivity. Qed.

Lemma first_path_sends req field p :
  sends_file req field p -> first_path (req_files req) field = ret (Some p).
Proof.
  intros (fs & f & rest & -> & Hf & <- & _). simpl. now rewrite Hf.
Qed.

Lemma sends_file_truthy req field p :
  sends_file req field p -> JsString.truthy_opt (Some p) = true.
Proof. intros (fs & f & rest & _ & _ & _ & H). exact H. Qed.

(** A request that passes validation reaches the two uploads, in this
    order, and goes on only when both gave an asset. *)
Lemma publishAVideo_uploads req w vp tp :
  publishable req vp tp ->
  publishAVideo req w =
  let w2 := record (Uploaded tp) (record (Uploaded vp) w) in
  match media w vp, media w tp with
  | Some videoFile, Some thumbnail => persist_and_reread req videoFile thumbnail w2
  | _, _ =>
      (Throw (ApiError 500
                "Something went wrong while uploading the video or thumbnail"),
       w2)
  end.
Proof.
  intros (Ht & Hd & Hv & Hth). unfold publishAVideo.
  rewrite (first_path_sends _ _ _ Hv), bind_ret.
  rewrite (first_path_sends _ _ _ Hth), bind_ret.
  rewrite bind_pass by (rewrite Ht, Hd; reflexivity).
  rewrite bind_pass
    by (rewrite (sends_file_truthy _ _ _ Hv), (sends_file_truthy _ _ _ Hth);
        reflexivity).
  unfold bind at 1 2, uploadOnCloudinary. simpl.
  destruct (media w vp), (media w tp); reflexivity.
Qed.

End Running.

(** ** The create workflow *)

Section Create.
Context {P : Platform}.

Lemma Video_create_log n w :
  exists rest, log (snd (Video_create n w)) = (log w ++ rest)%list
               /\ forall e, In e rest -> exists v, e = Created v.
Proof.
  unfold Video_create.
  destruct (new_owner n);
    [destruct (JsString.truthy (new_videoFile n) && JsString.truthy (new_thumbnail n))|];
    simpl.
  - eexists. split; [reflexivity|]. intros e [<-|[]]. eauto.
  - exists []. split; [now rewrite app_nil_r | intros e []].
  - exists []. split; [now rewrite app_nil_r | intros e []].
Qed.

(** C8.  In the create workflow the video file is uploaded to the media
    store before the thumbnail file; and when either upload gives no result
    the handler fails with the Internal error 500 having made exactly these
    two uploads: nothing is deleted from the media store (no clean-up of
    the upload that did succeed), no upload is made a second time, and no
    record is written. *)
Theorem publishAVideo_uploads_in_order_and_fails_without_cleanup
        (req : Request) (w : World) (videoPath thumbnailPath : string) :
  publishable req videoPath thumbnailPath ->
  (exists rest,
      log (snd (publishAVideo req w))
      = (log w ++ Uploaded videoPath :: Uploaded thumbnailPath :: rest)%list
      /\ forall e, In e rest -> exists v, e = Created v)
  /\ (media w videoPath = None \/ media w thumbnailPath = None ->
      fst (publishAVideo req w)
      = Throw (ApiError 500
                 "Something went wrong while uploading the video or thumbnail")
      /\ log (snd (publishAVideo req w))
         = (log w ++ [Uploaded videoPath; Uploaded thumbnailPath])%list
      /\ videos (snd (publishAVideo req w)) = videos w).
Proof.
  intros Hok. rewrite (publishAVideo_uploads _ _ _ _ Hok). cbv zeta.
  destruct (media w videoPath) as [va|] eqn:Hva;
    destruct (media w thumbnailPath) as [ta|] eqn:Hta; simpl.
  - split; [|intros [H|H]; discriminate].
    unfold persist_and_reread, bind at 1.
    match goal with |- context [Video_create ?n ?w0] =>
      destruct (Video_create_log n w0) as (rest & Hlog & Hrest);
      destruct (Video_create n w0) as [[v|e] w1] eqn:Hc
    end; simpl in Hlog |- *; exists rest; (split; [|exact Hrest]);
      rewrite Hlog; simpl; now rewrite <- !app_assoc.
  - split; [exists []|intros _; repeat split];
      (try split); try (intros e []); now rewrite <- app_assoc.
  - split; [exists []|intros _; repeat split];
      (try split); try (intros e []); now rewrite <- app_assoc.
  - split; [exists []|intros _; repeat split];
      (try split); try (intros e []); now rewrite <- app_assoc.
Qed.

(** C1 (the code departs from the specification).  A create request that
    passes validation, whose two uploads succeed and whose caller is
    authenticated does persist a new video whose duration is the one the
    media store reported for the video asset and whose owner is the caller;
    but the re-read is written [Video.findbyId], a property the model does
    not have, so the handler throws a TypeError there: it neither returns
    the record in a 200 envelope nor reaches its own 500 branch. *)
Theorem publishAVideo_persists_then_throws
        (req : Request) (w : World) (videoPath thumbnailPath : string)
        (videoAsset thumbnailAsset : Asset) (caller : User) :
  publishable req videoPath thumbnailPath ->
  media w videoPath = Some videoAsset ->
  media w thumbnailPath = Some thumbnailAsset ->
  JsString.truthy (url videoAsset) = true ->
  JsString.truthy (url thumbnailAsset) = true ->
  req_user req = Some caller ->
  exists v : VideoDoc,
    duration v = asset_duration videoAsset
    /\ owner v = user_id caller
    /\ publishAVideo req w
       = (Throw (TypeError "Video.findbyId is not a function"),
          record (Created v)
            (with_videos (videos w ++ [v])%list
               (record (Uploaded thumbnailPath) (record (Uploaded videoPath) w)))).
Proof.
  intros Hok Hv Ht Huv Hut Hu.
  rewrite (publishAVideo_uploads _ _ _ _ Hok), Hv, Ht. cbv zeta.
  unfold persist_and_reread, bind at 1, Video_create. simpl.
  rewrite Hu, Huv, Hut. simpl.
  eexists. split; [|split]; [| |reflexivity]; reflexivity.
Qed.

(** No request at all makes [publishAVideo] answer: every path to its
    response goes through the misspelt call. *)
Lemma publishAVideo_never_responds (req : Request) (w : World) :
  forall resp w', publishAVideo req w <> (Return resp, w').
Proof.
  intros resp w'. unfold publishAVideo, bind, first_path, throw_if,
    uploadOnCloudinary, Video_call, Video_create, throw, ret. simpl.
  repeat match goal with
         | |- context [match ?x with _ => _ end] => destruct x; simpl
         end; discriminate.
Qed.

End Create.

(** ** Retrieval *)

Section Retrieval.
Context {P : Platform}.

(** C9 (the code departs from the specification).  For every retrieval
    request that carries an identifier, whether or not a video is stored
    under it, the handler throws a TypeError at the call [Video.findbyId],
    a property the model does not have, before the database is asked
    anything.  The answer is never a success envelope, but it is not the
    handler's own "No video found" error of status 400 either, which cannot
    be reached. *)
Theorem getVideoById_throws_before_lookup (req : Request) (w : World) :
  JsString.truthy_opt (req_videoId req) = true ->
  getVideoById req w = (Throw (TypeError "Video.findbyId is not a function"), w).
Proof.
  intros H. unfold getVideoById. rewrite bind_pass by (now rewrite H).
  reflexivity.
Qed.

Lemma getVideoById_never_responds (req : Request) (w : World) :
  forall resp w', getVideoById req w <> (Return resp, w').
Proof.
  intros resp w'. unfold getVideoById.
  destruct (JsString.truthy_opt (req_videoId req)) eqn:H.
  - rewrite bind_pass by reflexivity. discriminate.
  - rewrite bind_stop by reflexivity. discriminate.
Qed.

End Retrieval.

(** ** The update workflow *)

Section Update.
Context {P : Platform}.

(** One guard of a handler: either it stops the handler, which contradicts
    an equation that says the handler went further, or it is passed. *)
Ltac pass_guard H :=
  match type of H with
  | context [throw_if ?c _] =>
      let G := fresh "G" in
      destruct c eqn:G;
      [ rewrite bind_stop in H by reflexivity; try discriminate
      | rewrite bind_pass in H by reflexivity ]
  end.

Lemma not_owner_spec (user : option User) (video : VideoDoc) :
  not_owner user video = true <-> option_map user_id user <> Some (owner video).
Proof.
  destruct user as [u|]; simpl.
  - rewrite negb_true_iff, String.eqb_neq. split; congruence.
  - split; [discriminate | reflexivity].
Qed.

(** A string that selects a video denotes an identifier, that of the
    video. *)
Lemma has_id_cast (id : string) (v : VideoDoc) :
  has_id id v = true <-> cast_ObjectId id = Some (_id v).
Proof.
  unfold has_id. destruct (cast_ObjectId id) as [o|].
  - rewrite String.eqb_eq. split; congruence.
  - split; discriminate.
Qed.

Lemma find_has_id_cast (id : string) (vs : list VideoDoc) (v : VideoDoc) :
  find (has_id id) vs = Some v -> cast_ObjectId id = Some (_id v).
Proof. intros H. apply find_some in H. now apply has_id_cast. Qed.

Lemma Video_findById_stored (id : string) (w : World) (v : VideoDoc) :
  find (has_id id) (videos w) = Some v ->
  Video_findById (Some id) w = (Return (Some v), record (Read (Some id)) w).
Proof.
  intros H. unfold Video_findById.
  now rewrite (find_has_id_cast _ _ _ H), H.
Qed.

(** What [updateVideo] does up to and including the ownership check leaves
    the stored videos alone and adds to the log at most the read. *)
Lemma updateVideo_non_owner_stops (req : Request) (w : World) (id : string)
      (video : VideoDoc) :
  req_videoId req = Some id ->
  find (has_id id) (videos w) = Some video ->
  not_owner (req_user req) video = true ->
  exists e w',
    updateVideo req w = (Throw e, w')
    /\ videos w' = videos w
    /\ (log w' = log w \/ log w' = (log w ++ [Read (Some id)])%list).
Proof.
  intros Hid Hfind Hno. unfold updateVideo. rewrite Hid.
  destruct (isValidObjectId (Some id)) eqn:Hvalid;
    [rewrite bind_pass by reflexivity | rewrite bind_stop by reflexivity; eauto 6].
  unfold bind at 1.
  destruct (first_path (req_files req) files_thumbnail w) as [[p|e] w1] eqn:Hp.
  2:{ unfold first_path, ret, throw in Hp.
      destruct (req_files req) as [fs|]; [destruct (files_thumbnail fs) as [[|f r]|]|];
        inversion Hp; subst; eauto 6. }
  assert (w1 = w) as ->.
  { unfold first_path, ret, throw in Hp.
    destruct (req_files req) as [fs|]; [destruct (files_thumbnail fs) as [[|f r]|]|];
      inversion Hp; reflexivity. }
  destruct (negb (JsString.truthy_opt p)) eqn:G1;
    [rewrite bind_stop by reflexivity; eauto 6 | rewrite bind_pass by reflexivity].
  destruct (blank (body_title (req_body req)) || blank (body_description (req_body req)))
    eqn:G2;
    [rewrite bind_stop by reflexivity; eauto 6 | rewrite bind_pass by reflexivity].
  unfold bind at 1. rewrite (Video_findById_stored _ _ _ Hfind).
  rewrite bind_stop by exact Hno. eauto 6.
Qed.

(** C6.  An update request on an existing video by anyone but its owner
    never succeeds, leaves the stored videos as they were and makes no
    upload to and no deletion from the media store (the only call it can
    make is the read of the video); and when every other input is valid,
    the failure is the Authorization error 403. *)
Theorem updateVideo_by_non_owner_is_refused
        (req : Request) (w : World) (id : string) (video : VideoDoc) :
  req_videoId req = Some id ->
  find (has_id id) (videos w) = Some video ->
  option_map user_id (req_user req) <> Some (owner video) ->
  (exists e, fst (updateVideo req w) = Throw e)
  /\ videos (snd (updateVideo req w)) = videos w
  /\ (log (snd (updateVideo req w)) = log w
      \/ log (snd (updateVideo req w)) = (log w ++ [Read (Some id)])%list)
  /\ (forall p, updatable req p ->
        updateVideo req w
        = (Throw (ApiError 403 "You are not authorized to update this video"),
           record (Read (Some id)) w)).
Proof.
  intros Hid Hfind Hno. apply not_owner_spec in Hno.
  destruct (updateVideo_non_owner_stops _ _ _ _ Hid Hfind Hno)
    as (e & w' & Hrun & Hvs & Hlog).
  rewrite Hrun. simpl. repeat split; eauto.
  intros p (Hvalid & Hsend & Ht & Hd). rewrite <- Hrun.
  unfold updateVideo. rewrite bind_pass by (now rewrite Hvalid).
  rewrite (first_path_sends _ _ _ Hsend), bind_ret.
  rewrite bind_pass by (now rewrite (sends_file_truthy _ _ _ Hsend)).
  rewrite bind_pass by (now rewrite Ht, Hd).
  rewrite Hid.
  unfold bind at 1. rewrite (Video_findById_stored _ _ _ Hfind).
  rewrite bind_stop by exact Hno. reflexivity.
Qed.

Lemma first_path_world (files : option Files) field (w w1 : World) r :
  first_path files field w = (r, w1) -> w1 = w.
Proof.
  unfold first_path, ret, throw.
  destruct files as [fs|]; [destruct (field fs) as [[|f rest]|]|];
    intros H; inversion H; reflexivity.
Qed.

Lemma first_path_found (req : Request) field (w w1 : World) (p : string) :
  first_path (req_files req) field w = (Return (Some p), w1) ->
  JsString.truthy p = true ->
  sends_file req field p.
Proof.
  unfold first_path, ret, throw, sends_file.
  destruct (req_files req) as [fs|]; [destruct (field fs) as [[|f rest]|] eqn:Hf|];
    intros H Hp; inversion H; subst. eauto 8.
Qed.

(** C7.  On every successful update of a video that has a thumbnail, the
    calls the handler makes are, in this order: the read of the video, the
    upload of the new thumbnail, the write of the record, and the deletion
    of the thumbnail asset that was stored before.  So the old asset is
    targeted for deletion exactly once, the deletion comes after the write
    (the stored record already carries the new address), and nothing is
    deleted before the write. *)
Theorem updateVideo_deletes_old_thumbnail_once_after_write
        (req : Request) (w w' : World) (resp : Response (option VideoDoc))
        (id : string) (video : VideoDoc) :
  updateVideo req w = (Return resp, w') ->
  req_videoId req = Some id ->
  find (has_id id) (videos w) = Some video ->
  JsString.truthy (thumbnail video) = true ->
  exists (p : string) (asset : Asset),
    sends_file req files_thumbnail p
    /\ media w p = Some asset
    /\ videos w'
       = update_first id
           (set_fields (text (body_title (req_body req)))
                       (text (body_description (req_body req))) (url asset))
           (videos w)
    /\ log w'
       = (log w ++ [ Read (Some id);
                     Uploaded p;
                     Updated (Some id) (text (body_title (req_body req)))
                             (text (body_description (req_body req))) (url asset);
                     Deleted (thumbnail video) ])%list.
Proof.
  intros Hrun Hid Hfind Hold. unfold updateVideo in Hrun. rewrite Hid in Hrun.
  pass_guard Hrun. apply negb_false_iff in G.
  unfold bind at 1 in Hrun.
  destruct (first_path (req_files req) files_thumbnail w) as [[op|e] w1] eqn:Hp;
    [|discriminate].
  pose proof (first_path_world _ _ _ _ _ Hp) as ->.
  pass_guard Hrun. apply negb_false_iff in G0.
  destruct op as [p|]; [|discriminate]. simpl in G0.
  pose proof (first_path_found _ _ _ _ _ Hp G0) as Hsend.
  pass_guard Hrun.
  unfold bind at 1 in Hrun. rewrite (Video_findById_stored _ _ _ Hfind) in Hrun.
  pass_guard Hrun.
  unfold bind at 1, uploadOnCloudinary in Hrun. simpl in Hrun.
  destruct (media w p) as [asset|] eqn:Hm; [|discriminate].
  unfold bind, Video_findByIdAndUpdate, deleteFromCloudinary, emit, ret in Hrun.
  rewrite (find_has_id_cast _ _ _ Hfind) in Hrun.
  simpl in Hrun. rewrite Hold in Hrun. simpl in Hrun.
  inversion Hrun; subst. exists p, asset. simpl.
  repeat split; auto. now rewrite <- !app_assoc.
Qed.

(** C10, as the code has it.  With the files object present:
    [publishAVideo] throws a TypeError, before any validation and without
    touching the world, when the [videoFile] field is absent; [updateVideo] with the
    [thumbnail] field absent throws the TypeError only after its first
    check, so an ill-formed video identifier is answered with the
    Validation error 400 and a well-formed one with the TypeError, before
    the thumbnail, title and description are validated.  A Validation error
    from [publishAVideo] therefore means both field arrays exist; one from
    [updateVideo] means the thumbnail array exists or the identifier is
    ill-formed. *)
Theorem absent_file_field_throws_TypeError
        (req : Request) (w : World) (fs : Files) :
  req_files req = Some fs ->
  (files_videoFile fs = None ->
   publishAVideo req w
   = (Throw (TypeError "Cannot read properties of undefined (reading '0')"), w))
  /\ (files_thumbnail fs = None ->
      updateVideo req w
      = if isValidObjectId (req_videoId req)
        then (Throw (TypeError "Cannot read properties of undefined (reading '0')"), w)
        else (Throw (ApiError 400 "Invalid video ID"), w))
  /\ (forall m w', publishAVideo req w = (Throw (ApiError 400 m), w') ->
                   files_videoFile fs <> None /\ files_thumbnail fs <> None)
  /\ (forall m w', updateVideo req w = (Throw (ApiError 400 m), w') ->
                   files_thumbnail fs <> None
                   \/ isValidObjectId (req_videoId req) = false).
Proof.
  intros Hfs.
  assert (Hpub : files_videoFile fs = None ->
                 publishAVideo req w
                 = (Throw (TypeError "Cannot read properties of undefined (reading '0')"), w)).
  { intros Hv. unfold publishAVideo, first_path. now rewrite Hfs, Hv. }
  assert (Hupd : files_thumbnail fs = None ->
                 updateVideo req w
                 = if isValidObjectId (req_videoId req)
                   then (Throw (TypeError "Cannot read properties of undefined (reading '0')"), w)
                   else (Throw (ApiError 400 "Invalid video ID"), w)).
  { intros Ht. unfold updateVideo, first_path.
    destruct (isValidObjectId (req_videoId req)); [|reflexivity].
    rewrite bind_pass by reflexivity. now rewrite Hfs, Ht. }
  repeat split; auto.
  - intros Hv. rewrite (Hpub Hv) in H. discriminate.
  - intros Ht. revert H. unfold publishAVideo, first_path. rewrite Hfs, Ht.
    destruct (files_videoFile fs) as [[|f r]|]; discriminate.
  - intros m w1 H.
    destruct (files_thumbnail fs) as [l|] eqn:Ht; [left; discriminate|right].
    rewrite (Hupd eq_refl) in H.
    destruct (isValidObjectId (req_videoId req)); [discriminate|reflexivity].
Qed.

End Update.

(** ** Numbers that denote integers *)

Section Integers.

Lemma Qred_inject_Z (z : Z) : Qred (inject_Z z) = inject_Z z.
Proof. apply Qred_identity. simpl. apply Z.gcd_1_r. Qed.

Lemma Qred_integer (q : Q) (z : Z) : q == inject_Z z -> Qred q = inject_Z z.
Proof. intros H. now rewrite (Qred_complete _ _ H), Qred_inject_Z. Qed.

Lemma to_Z_Finite (q : Q) (z : Z) : q == inject_Z z -> to_Z (Finite q) = Some z.
Proof. intros H. unfold to_Z. now rewrite (Qred_integer _ _ H). Qed.

Lemma to_Z_of_Z (z : Z) : to_Z (of_Z z) = Some z.
Proof. apply to_Z_Finite. reflexivity. Qed.

Lemma to_Z_inv (n : number) (z : Z) :
  to_Z n = Some z -> exists q, n = Finite q /\ q == inject_Z z.
Proof.
  destruct n as [| |q]; try discriminate. unfold to_Z.
  destruct (Pos.eqb_spec (Qden (Qred q)) 1) as [E|]; [|discriminate].
  intros H. inversion H as [Hz]. exists q. split; [reflexivity|].
  apply Qeq_trans with (Qred q); [apply Qeq_sym, Qred_correct|].
  destruct (Qred q) as [a b]. simpl in *. subst. reflexivity.
Qed.

Lemma to_Z_isFinite (n : number) (z : Z) : to_Z n = Some z -> isFinite n = true.
Proof. intros H. destruct (to_Z_inv _ _ H) as (q & -> & _). reflexivity. Qed.

Lemma to_Z_isInteger (n : number) : isInteger n = true <-> exists z, to_Z n = Some z.
Proof.
  unfold isInteger, to_Z.
  destruct n as [| |q]; [| |destruct (Pos.eqb (Qden (Qred q)) 1)];
    split; try discriminate; try (intros [z H]; discriminate);
    try reflexivity; intros _; eexists; reflexivity.
Qed.

Lemma lt_integer (n : number) (z k : Z) :
  to_Z n = Some z -> lt n (of_Z k) = (z <? k).
Proof.
  intros H. destruct (to_Z_inv _ _ H) as (q & -> & Hq). simpl.
  destruct (Z.ltb_spec z k) as [L|L].
  - apply negb_true_iff. destruct (Qle_bool (inject_Z k) q) eqn:E; [|reflexivity].
    apply Qle_bool_iff in E. rewrite Hq, <- Zle_Qle in E. lia.
  - apply negb_false_iff, Qle_bool_iff. rewrite Hq, <- Zle_Qle. exact L.
Qed.

Lemma binary64_eq (q q' : Q) : q == q' -> binary64 q = binary64 q'.
Proof. intros H. unfold binary64. now rewrite (Qred_complete _ _ H). Qed.

Lemma signed_abs (z : Z) : (if z <? 0 then - Z.abs z else Z.abs z) = z.
Proof. destruct (Z.ltb_spec z 0); lia. Qed.

(** Rounding leaves an integer of at most 53 bits, and [2 ^ 53], as it
    is. *)
Lemma binary64_integer (z : Z) :
  Z.abs z <= 2 ^ 53 -> binary64 (inject_Z z) = Finite (inject_Z z).
Proof.
  intros Hz. unfold binary64. rewrite Qred_inject_Z. cbn [Qnum Qden inject_Z].
  destruct (Z.eqb_spec (Z.abs z) 0) as [E|N].
  { assert (z = 0) by lia. subst. reflexivity. }
  assert (Hn : 0 < Z.abs z) by lia.
  pose proof (Z.log2_spec _ Hn) as [Hlo Hhi].
  pose proof (Z.log2_nonneg (Z.abs z)) as Hk0.
  assert (Hk : Z.log2 (Z.abs z) <= 53).
  { assert (L : Z.log2 (Z.abs z) < 54); [|lia].
    apply Z.log2_lt_pow2; [exact Hn|].
    change (2 ^ 53) with 9007199254740992 in Hz.
    change (2 ^ 54) with 18014398509481984. lia. }
  unfold floor_log2. change (Z.log2 1) with 0. rewrite Z.sub_0_r, Z.mul_1_l.
  replace (0 <=? Z.log2 (Z.abs z)) with true by (symmetry; apply Z.leb_le; lia).
  replace (Z.abs z <? 2 ^ Z.log2 (Z.abs z)) with false
    by (symmetry; apply Z.ltb_ge; exact Hlo).
  rewrite Z.max_r by lia.
  destruct (Z.leb_spec 0 (Z.log2 (Z.abs z) - 52)) as [He|He].
  - assert (Hcase : Z.log2 (Z.abs z) = 52 \/ Z.log2 (Z.abs z) = 53) by lia.
    destruct Hcase as [K|K]; rewrite K in *.
    + change (52 - 52) with 0. change (2 ^ 0) with 1.
      unfold nearest_even. rewrite !Z.mul_1_r, Z.div_1_r, Z.mod_1_r.
      cbn [Z.mul Z.ltb Z.eqb Z.compare orb andb].
      replace (2 ^ 1024 <=? Z.abs z) with false.
      * now rewrite signed_abs.
      * symmetry. apply Z.leb_gt.
        change (2 ^ 53) with 9007199254740992 in Hz.
        assert (9007199254740992 < 2 ^ 1024) by reflexivity. lia.
    + assert (E : Z.abs z = 2 ^ 53).
      { change (Z.succ 53) with 54 in Hhi. lia. }
      rewrite E. change (53 - 52) with 1.
      change (nearest_even (2 ^ 53) (1 * 2 ^ 1)) with (2 ^ 52).
      change (2 ^ 1024 <=? 2 ^ 52 * 2 ^ 1) with false. cbv iota.
      f_equal. f_equal.
      destruct (Z.ltb_spec z 0);
        change (2 ^ 52 * 2 ^ 1) with (2 ^ 53);
        change (- 2 ^ 52 * 2 ^ 1) with (- 2 ^ 53); lia.
  - set (t := - (Z.log2 (Z.abs z) - 52)).
    assert (Ht : 0 < 2 ^ t) by (apply Z.pow_pos_nonneg; lia).
    unfold nearest_even. rewrite Z.div_1_r, Z.mod_1_r.
    cbn [Z.mul Z.ltb Z.eqb Z.compare orb andb].
    f_equal. apply Qred_integer. unfold Qeq. cbn [Qnum Qden inject_Z].
    rewrite Z2Pos.id by exact Ht.
    destruct (Z.ltb_spec z 0); lia.
Qed.

Lemma sub_integer (n : number) (z k : Z) :
  to_Z n = Some z -> Z.abs (z - k) <= 2 ^ 53 ->
  sub n (of_Z k) = of_Z (z - k).
Proof.
  intros H B. destruct (to_Z_inv _ _ H) as (q & -> & Hq). unfold sub, of_Z.
  rewrite <- (binary64_integer _ B). apply binary64_eq. rewrite Hq.
  unfold Z.sub, Qminus. rewrite inject_Z_plus, inject_Z_opp. reflexivity.
Qed.

Lemma mul_integer (n : number) (z k : Z) :
  to_Z n = Some z -> Z.abs (k * z) <= 2 ^ 53 ->
  mul (of_Z k) n = of_Z (k * z).
Proof.
  intros H B. destruct (to_Z_inv _ _ H) as (q & -> & Hq). unfold mul, of_Z.
  rewrite <- (binary64_integer _ B). apply binary64_eq. rewrite Hq.
  now rewrite inject_Z_mult.
Qed.

End Integers.

(** ** The listing: validation *)

Section ListingValidation.
Context {P : Platform}.

Lemma getAllVideos_rejected (req : Request) (w : World) :
  rejected req = true ->
  exists m, getAllVideos req w = (Throw (ApiError 400 m), w).
Proof.
  unfold rejected, getAllVideos. fold (pageNum req) (limitNum req). intros H.
  destruct (negb (isFinite (pageNum req)) || lt (pageNum req) (of_Z 1)) eqn:G1;
    [rewrite bind_stop by reflexivity; eauto | rewrite bind_pass by reflexivity].
  destruct (negb (isFinite (limitNum req)) || lt (limitNum req) (of_Z 1)) eqn:G2;
    [rewrite bind_stop by reflexivity; eauto | rewrite bind_pass by reflexivity].
  destruct (blank (query (req_query req))) eqn:G3;
    [rewrite bind_stop by reflexivity; eauto | rewrite bind_pass by reflexivity].
  simpl in H. rewrite bind_stop by exact H. eauto.
Qed.

Lemma getAllVideos_accepted (req : Request) (w : World) :
  rejected req = false ->
  getAllVideos req w =
  match Types_ObjectId (userId (req_query req)) with
  | None => (Throw (LibraryError "BSONError" "input is not an identifier"), w)
  | Some ownerId =>
      if regexp_accepts (source (title_regex req)) "i" then
        (match Engine.run (collection w) (issued_pipeline req ownerId)
                          (map video_document (videos w)) with
         | Return rows =>
             Return (respond 200
                       (new_ApiResponse 200 rows "All videos fetched successfully"))
         | Throw e => Throw e
         end,
         record (Aggregated (issued_pipeline req ownerId)) w)
      else (Throw (LibraryError "SyntaxError" "Invalid regular expression"), w)
  end.
Proof.
  unfold rejected. intros H.
  apply orb_false_elim in H as [H G4]. apply orb_false_elim in H as [H G3].
  apply orb_false_elim in H as [G1 G2].
  unfold getAllVideos. fold (pageNum req) (limitNum req).
  rewrite bind_pass by exact G1. rewrite bind_pass by exact G2.
  rewrite bind_pass by exact G3. rewrite bind_pass by exact G4.
  unfold bind at 1, mongoose_Types_ObjectId.
  destruct (Types_ObjectId (userId (req_query req))) as [o|]; [|reflexivity].
  unfold ret at 1, bind at 1, new_RegExp. simpl source.
  destruct (regexp_accepts _ "i"); [|reflexivity].
  unfold ret at 1, bind, Video_aggregate, issued_pipeline, title_regex.
  destruct (Engine.run _ _ _); reflexivity.
Qed.

Lemma run_throws_library collection (p : pipeline) (rows : list document) e :
  Engine.run collection p rows = Throw e -> exists n m, e = LibraryError n m.
Proof.
  revert rows. induction p as [|s p IH]; intros rows; simpl; [discriminate|].
  destruct (Engine.run_stage collection s rows) as [rows'|e'] eqn:Hs.
  - apply IH.
  - intros H. inversion H; subst. clear H.
    unfold Engine.run_stage, Engine.bad_stage in Hs.
    destruct s; try discriminate;
      repeat match type of Hs with
             | context [match ?x with _ => _ end] => destruct x
             end; inversion Hs; eauto.
Qed.


(** The Validation error is the answer exactly when one of the four guards
    fires, and then nothing has been asked of the database or the media
    store. *)
Lemma getAllVideos_rejects_iff (req : Request) (w : World) :
  (exists m w', getAllVideos req w = (Throw (ApiError 400 m), w'))
  <-> rejected req = true.
Proof.
  split.
  - intros (m & w' & H). destruct (rejected req) eqn:R; [reflexivity|].
    rewrite (getAllVideos_accepted _ _ R) in H.
    destruct (Types_ObjectId _); [|discriminate].
    destruct (regexp_accepts _ _); [|discriminate].
    destruct (Engine.run _ _ _) eqn:E; [discriminate|].
    apply run_throws_library in E as (n & m' & ->). discriminate.
  - intros R. destruct (getAllVideos_rejected _ w R) as (m & H). eauto.
Qed.

End ListingValidation.

(** ** The listing: what the pipeline returns *)

Section ListingPage.
Context {P : Platform}.

Lemma run_listing_pipeline collection docs o re sortBy sortType s l :
  Engine.run collection (listing_pipeline o re sortBy sortType s l) docs =
  if negb (regex_supported re)
  then Engine.bad_stage "$regex has an invalid pattern"
  else if negb (sort_key_accepted (sort_key sortBy))
  then Engine.bad_stage "$sort key must be a field path"
  else
  match to_Z s, to_Z l with
  | Some si, Some li =>
      if ((0 <=? si) && (si <=? Engine.max_long))
         && ((1 <=? li) && (li <=? Engine.max_long)) then
        Return (map listed
                    (firstn (Z.to_nat li)
                       (skipn (Z.to_nat si)
                          (ranked (collection "users") docs o re sortBy sortType))))
      else if (0 <=? si) && (si <=? Engine.max_long)
           then Engine.bad_stage "$limit must be a positive 64-bit integer"
           else Engine.bad_stage "$skip must be a non-negative 64-bit integer"
  | Some si, None =>
      if (0 <=? si) && (si <=? Engine.max_long)
      then Engine.bad_stage "$limit must be a positive 64-bit integer"
      else Engine.bad_stage "$skip must be a non-negative 64-bit integer"
  | None, _ => Engine.bad_stage "$skip must be a non-negative 64-bit integer"
  end.
Proof.
  unfold listing_pipeline, ranked, sort_order, sort_key, is_desc.
  cbn [Engine.run Engine.run_stage].
  destruct (regex_supported re); [|reflexivity].
  cbn [Engine.run Engine.run_stage negb].
  destruct (sort_key_accepted _); [|reflexivity]. cbn [negb].
  destruct sortType as [t|]; [destruct (String.eqb t "desc")|];
    cbn [Z.eqb Pos.eqb];
    (destruct (to_Z s) as [si|]; [|reflexivity]);
    (destruct ((0 <=? si) && (si <=? Engine.max_long));
     [|destruct (to_Z l); reflexivity]);
    (destruct (to_Z l) as [li|]; [|reflexivity]);
    destruct ((1 <=? li) && (li <=? Engine.max_long)); reflexivity.
Qed.

Lemma listable_accepted req p l o : listable req p l o -> rejected req = false.
Proof.
  intros (Hp & Hp1 & Hl & Hl1 & Hq & Hu & _). unfold rejected.
  rewrite (to_Z_isFinite _ _ Hp), (to_Z_isFinite _ _ Hl).
  rewrite (lt_integer _ _ 1 Hp), (lt_integer _ _ 1 Hl), Hq.
  replace (p <? 1) with false by (symmetry; apply Z.ltb_ge; lia).
  replace (l <? 1) with false by (symmetry; apply Z.ltb_ge; lia).
  simpl. destruct (JsString.truthy_opt _); [|reflexivity].
  now rewrite Hu.
Qed.

Lemma listable_start_index req p l o :
  listable req p l o ->
  mul (sub (pageNum req) (of_Z 1)) (limitNum req) = of_Z ((p - 1) * l).
Proof.
  intros (Hp & Hp1 & Hl & Hl1 & _ & _ & _ & _ & B & _).
  rewrite (sub_integer _ _ 1 Hp) by nia.
  apply mul_integer; [exact Hl|].
  rewrite Z.abs_eq by nia. exact B.
Qed.


End ListingPage.

(** ** Sorting and windows of a sorted list *)

Section Sorting.
Context {A : Type} (le : A -> A -> bool).
Hypothesis le_total : forall a b, le a b = true \/ le b a = true.
Hypothesis le_trans : forall a b c, le a b = true -> le b c = true -> le a c = true.

Let R (a b : A) : Prop := le a b = true.

Lemma insert_permutation (x : A) (l : list A) :
  Permutation (x :: l) (Engine.insert le x l).
Proof.
  induction l as [|y r IH]; simpl; [reflexivity|].
  destruct (le x y); [reflexivity|].
  rewrite perm_swap. now apply perm_skip.
Qed.

Lemma sort_permutation (l : list A) : Permutation l (Engine.sort le l).
Proof.
  induction l as [|x r IH]; simpl; [reflexivity|].
  rewrite <- insert_permutation. now apply perm_skip.
Qed.

Lemma insert_sorted (x : A) (l : list A) :
  StronglySorted R l -> StronglySorted R (Engine.insert le x l).
Proof.
  induction 1 as [|y r Hr IH Hy]; simpl.
  - repeat constructor.
  - destruct (le x y) eqn:E.
    + constructor; [now constructor|]. constructor; [exact E|].
      eapply Forall_impl; [|exact Hy]. intros z Hz. exact (le_trans _ _ _ E Hz).
    + constructor; [exact IH|].
      rewrite <- insert_permutation. constructor; [|exact Hy].
      destruct (le_total x y) as [H|H]; [congruence | exact H].
Qed.

Lemma sort_sorted (l : list A) : StronglySorted R (Engine.sort le l).
Proof.
  induction l as [|x r IH]; simpl; [constructor | now apply insert_sorted].
Qed.

(** Rows without ties have one sorted order. *)
Lemma sorted_unique (l1 l2 : list A) :
  (forall a b, In a l1 -> In b l1 -> le a b = true -> le b a = true -> a = b) ->
  Permutation l1 l2 -> StronglySorted R l1 -> StronglySorted R l2 -> l1 = l2.
Proof.
  intros Hanti. revert l2. induction l1 as [|a r1 IH]; intros l2 Hperm H1 H2.
  - now apply Permutation_nil in Hperm.
  - destruct l2 as [|b r2];
      [apply Permutation_sym, Permutation_nil in Hperm; discriminate|].
    inversion H1 as [|? ? Hs1 Ha]; subst. inversion H2 as [|? ? Hs2 Hb]; subst.
    assert (E : a = b).
    { assert (Ia : In a (b :: r2)) by (apply (Permutation_in _ Hperm); now left).
      assert (Ib : In b (a :: r1))
        by (apply (Permutation_in _ (Permutation_sym Hperm)); now left).
      destruct Ia as [Ia|Ia]; [now symmetry|].
      destruct Ib as [Ib|Ib]; [exact Ib|].
      rewrite Forall_forall in Ha, Hb.
      apply Hanti; [now left | now right | apply Ha, Ib | apply Hb, Ia]. }
    subst b. f_equal. apply IH; auto.
    + intros x y Hx Hy. apply Hanti; now right.
    + eapply Permutation_cons_inv; exact Hperm.
Qed.

End Sorting.

Section Windows.
Context {A : Type}.

Lemma Forall_firstn (Q : A -> Prop) (n : nat) (l : list A) :
  Forall Q l -> Forall Q (firstn n l).
Proof.
  intros H. revert n. induction H; intros [|n]; simpl; constructor; auto.
Qed.

Lemma Forall_skipn (Q : A -> Prop) (n : nat) (l : list A) :
  Forall Q l -> Forall Q (skipn n l).
Proof.
  intros H. revert n. induction H; intros [|n]; simpl; auto.
Qed.

Lemma StronglySorted_firstn (R : A -> A -> Prop) (n : nat) (l : list A) :
  StronglySorted R l -> StronglySorted R (firstn n l).
Proof.
  intros H. revert n. induction H; intros [|n]; simpl; constructor; auto.
  now apply Forall_firstn.
Qed.

Lemma StronglySorted_skipn (R : A -> A -> Prop) (n : nat) (l : list A) :
  StronglySorted R l -> StronglySorted R (skipn n l).
Proof.
  intros H. revert n. induction H; intros [|n]; simpl; auto; constructor; auto.
Qed.

(** A map keeps a list sorted when it keeps the order of any two of its
    elements. *)
Lemma StronglySorted_map {B : Type} (R : A -> A -> Prop) (R' : B -> B -> Prop)
      (f : A -> B) (l : list A) :
  (forall a b, In a l -> In b l -> R a b -> R' (f a) (f b)) ->
  StronglySorted R l -> StronglySorted R' (map f l).
Proof.
  intros Hf H. induction H as [|x r Hr IH Hx]; simpl; constructor.
  - apply IH. intros a b Ha Hb. apply Hf; now right.
  - apply Forall_forall. intros y Hy. apply in_map_iff in Hy as (z & <- & Hz).
    apply Hf; [now left | now right |].
    rewrite Forall_forall in Hx. now apply Hx.
Qed.

End Windows.

(** ** Fields of a document through the stages *)

Section Fields.

Lemma get_set_same k v d : get k (Engine.set k v d) = Some v.
Proof.
  induction d as [|[k' v'] r IH]; simpl.
  - now rewrite String.eqb_refl.
  - destruct (String.eqb k k') eqn:E; simpl; rewrite ?String.eqb_refl, ?E; auto.
Qed.

Lemma get_set_other k k' v d : k <> k' -> get k (Engine.set k' v d) = get k d.
Proof.
  intros N. apply String.eqb_neq in N.
  induction d as [|[k2 v2] r IH]; simpl.
  - now rewrite N.
  - destruct (String.eqb k' k2) eqn:E; simpl.
    + apply String.eqb_eq in E. subst. now rewrite N.
    + destruct (String.eqb k k2); auto.
Qed.

Lemma get_remove_same k d : get k (Engine.remove k d) = None.
Proof.
  induction d as [|[k' v'] r IH]; simpl; [reflexivity|].
  destruct (String.eqb k k') eqn:E; simpl; rewrite ?E; auto.
Qed.

Lemma get_remove_other k k' d : k <> k' -> get k (Engine.remove k' d) = get k d.
Proof.
  intros N. apply String.eqb_neq in N.
  induction d as [|[k2 v2] r IH]; simpl; [reflexivity|].
  destruct (String.eqb k' k2) eqn:E; simpl.
  - apply String.eqb_eq in E. subst. now rewrite N.
  - destruct (String.eqb k k2); auto.
Qed.

Lemma get_app k (a b : document) :
  get k (a ++ b)%list = match get k a with Some v => Some v | None => get k b end.
Proof.
  induction a as [|[k' v'] r IH]; simpl; [reflexivity|].
  destruct (String.eqb k k'); auto.
Qed.

Lemma get_filter (keep : string -> bool) k (d : document) :
  get k (filter (fun kv => keep (fst kv)) d) = if keep k then get k d else None.
Proof.
  induction d as [|[k' v'] r IH]; simpl; [now destruct (keep k)|].
  destruct (String.eqb k k') eqn:E.
  - apply String.eqb_eq in E. subst k'.
    destruct (keep k) eqn:K; simpl; [now rewrite String.eqb_refl | exact IH].
  - destruct (keep k'); simpl; rewrite ?E; exact IH.
Qed.

Lemma split_path_cons k : exists h t, split_path k = h :: t.
Proof.
  destruct k as [|c r]; simpl; [eauto|].
  destruct (Ascii.eqb c "."); [eauto|]. destruct (split_path r); eauto.
Qed.

(** The value at a path is decided by the field its first name picks. *)
Lemma sort_value_head k h t (d d' : document) :
  split_path k = h :: t -> get h d = get h d' -> sort_value k d = sort_value k d'.
Proof.
  intros Hk H. unfold sort_value, field. rewrite Hk. simpl. now rewrite H.
Qed.

Lemma scalar_eqb_Oid v o : scalar_eqb v (Oid o) = true -> v = Oid o.
Proof.
  destruct v; simpl; try discriminate. intros H.
  apply String.eqb_eq in H. now subst.
Qed.

End Fields.

Section ListedRows.
Context {P : Platform}.

Lemma matches_owner o p re d :
  Engine.matches o p re d = true -> get "owner" d = Some (Oid o).
Proof.
  unfold Engine.matches.
  destruct (get "owner" d) as [ow|]; [|discriminate].
  destruct (get "isPublished" d) as [pu|]; [|discriminate].
  destruct (get "title" d) as [[]|]; try discriminate.
  intros H. apply andb_true_iff in H as [H _]. apply andb_true_iff in H as [H _].
  now rewrite (scalar_eqb_Oid _ _ H).
Qed.

Lemma join_row foreign o d :
  get "owner" d = Some (Oid o) ->
  joined_row foreign o
    (Engine.add_first "ownerInfo" "$ownerInfo"
       (Engine.lookup foreign "owner" "_id" "ownerInfo" d)).
Proof.
  intros Ho. unfold Engine.lookup, Engine.add_first, joined_row, owner_info.
  rewrite Ho.
  set (J := Engine.joined foreign "_id" (Some (Oid o))).
  assert (E : Engine.expression "$ownerInfo" (Engine.set "ownerInfo" (Arr J) d)
              = Some (Arr J)).
  { unfold Engine.expression, field. simpl split_path. simpl resolve.
    now rewrite get_set_same. }
  rewrite E. destruct (Engine.first_of (Some (Arr J))) as [x|].
  - rewrite get_set_same, !get_set_other by discriminate. auto.
  - rewrite get_remove_same, get_remove_other, get_set_other by discriminate. auto.
Qed.

Lemma ranked_rows foreign docs o re sortBy sortType :
  Forall (joined_row foreign o) (ranked foreign docs o re sortBy sortType).
Proof.
  unfold ranked. rewrite <- sort_permutation.
  rewrite !Forall_map. apply Forall_forall. intros d Hd.
  apply filter_In in Hd as [_ Hd]. apply join_row. exact (matches_owner _ _ _ _ Hd).
Qed.

Lemma listed_spec (d : document) :
  listed d
  = (filter (fun kv => included (fst kv)) d
     ++ computed_fields (get "ownerInfo" d))%list.
Proof.
  unfold listed, Engine.project, computed_fields, Engine.expression, field.
  simpl flat_map. simpl split_path. simpl resolve. rewrite app_nil_r.
  reflexivity.
Qed.

Lemma get_computed_included k info :
  included k = true -> get k (computed_fields info) = None.
Proof.
  unfold included. simpl. rewrite !orb_true_iff, !String.eqb_eq.
  intros H. unfold computed_fields.
  destruct (match info with Some v => resolve ["fullName"] v | None => None end);
    destruct (match info with Some v => resolve ["avatar"] v | None => None end);
    simpl; intuition (subst; try congruence; reflexivity).
Qed.

(** An included field is in a listed row what it is in the row. *)
Lemma get_listed_included k d : included k = true -> get k (listed d) = get k d.
Proof.
  intros H. rewrite listed_spec, get_app, get_filter, H.
  destruct (get k d); [reflexivity|]. now apply get_computed_included.
Qed.

(** Any other field of a listed row is decided by [ownerInfo]. *)
Lemma get_listed_other k d :
  included k = false -> get k (listed d) = get k (computed_fields (get "ownerInfo" d)).
Proof.
  intros H. now rewrite listed_spec, get_app, get_filter, H.
Qed.

End ListedRows.

(** ** The listing: owner filter and order of the page *)

Section ListingOrder.
Context {P : Platform}.

(** What a listing that answers has done. *)
Lemma getAllVideos_answer (req : Request) (w w' : World)
      (resp : Response (list document)) :
  getAllVideos req w = (Return resp, w') ->
  exists (o : ObjectId) (skipped taken : nat),
    Types_ObjectId (userId (req_query req)) = Some o
    /\ w' = record (Aggregated (issued_pipeline req o)) w
    /\ data (json resp)
       = map listed (firstn taken (skipn skipped (ranked_matches w req o))).
Proof.
  intros H. destruct (rejected req) eqn:R.
  - destruct (getAllVideos_rejected _ w R) as (m & E). congruence.
  - rewrite (getAllVideos_accepted _ _ R) in H.
    destruct (Types_ObjectId _) as [o|]; [|discriminate].
    destruct (regexp_accepts _ _); [|discriminate].
    unfold issued_pipeline at 1 in H. rewrite run_listing_pipeline in H.
    unfold Engine.bad_stage in H.
    destruct (negb (regex_supported _)); [discriminate|].
    destruct (negb (sort_key_accepted _)); [discriminate|].
    destruct (to_Z (mul _ _)) as [si|]; [|discriminate].
    destruct (to_Z (limitNum req)) as [li|];
      [|destruct ((0 <=? si) && (si <=? Engine.max_long)); discriminate].
    destruct (((0 <=? si) && (si <=? Engine.max_long))
              && ((1 <=? li) && (li <=? Engine.max_long)));
      [|destruct ((0 <=? si) && (si <=? Engine.max_long)); discriminate].
    inversion H; subst. exists o, (Z.to_nat si), (Z.to_nat li). auto.
Qed.

Lemma log_grows (l : list event) (e : event) : l <> (l ++ [e])%list.
Proof.
  intros H. apply (f_equal (@length event)) in H.
  rewrite length_app in H. simpl in H. lia.
Qed.

(** C4.  Whenever [getAllVideos] asks the database, the first stage of the
    pipeline is the match on [owner] (the identifier made from the
    request's [userId], whatever it is, also when it is not supplied),
    [isPublished = true] and the title; and every record of an answered
    page has that owner. *)
Theorem getAllVideos_always_filters_by_owner
        (req : Request) (w : World) (p : pipeline) :
  log (snd (getAllVideos req w)) = (log w ++ [Aggregated p])%list ->
  exists (o : ObjectId) (rest : pipeline),
    Types_ObjectId (userId (req_query req)) = Some o
    /\ p = Match o true (title_regex req) :: rest
    /\ forall resp, fst (getAllVideos req w) = Return resp ->
                    Forall (fun row => get "owner" row = Some (Oid o))
                           (data (json resp)).
Proof.
  intros Hlog. destruct (rejected req) eqn:R.
  { destruct (getAllVideos_rejected _ w R) as (m & E). rewrite E in Hlog.
    simpl in Hlog. now apply log_grows in Hlog. }
  pose proof (getAllVideos_accepted _ w R) as E.
  destruct (Types_ObjectId (userId (req_query req))) as [o|] eqn:Ho;
    [|rewrite E in Hlog; simpl in Hlog; now apply log_grows in Hlog].
  destruct (regexp_accepts _ _);
    [|rewrite E in Hlog; simpl in Hlog; now apply log_grows in Hlog].
  rewrite E in Hlog. simpl in Hlog. apply app_inv_head in Hlog.
  inversion Hlog as [Hp]. exists o. eexists. split; [reflexivity|].
  split; [reflexivity|].
  intros resp Hresp.
  destruct (getAllVideos req w) as [r w'] eqn:Hrun. simpl in Hresp. subst r.
  destruct (getAllVideos_answer _ _ _ _ Hrun) as (o' & sk & tk & Ho' & _ & ->).
  rewrite Ho in Ho'. inversion Ho'; subst o'.
  rewrite Forall_map. apply Forall_firstn, Forall_skipn.
  eapply Forall_impl; [|apply ranked_rows].
  intros d [Hd _]. now rewrite get_listed_included.
Qed.

Lemma value_leb_refl (v : value) : value_leb v v = true.
Proof. destruct (value_leb_total v v); assumption. Qed.

(** Two rows of one listing have, once projected, sort values in the order
    the rows were sorted in. *)
Lemma listed_keeps_order foreign o key (a b : document) :
  joined_row foreign o a -> joined_row foreign o b ->
  value_leb (sort_value key a) (sort_value key b) = true ->
  value_leb (sort_value key (listed a)) (sort_value key (listed b)) = true.
Proof.
  intros [_ Ha] [_ Hb] H.
  destruct (split_path_cons key) as (h & t & Hk).
  destruct (included h) eqn:I.
  - rewrite (sort_value_head key h t (listed a) a Hk (get_listed_included _ _ I)).
    rewrite (sort_value_head key h t (listed b) b Hk (get_listed_included _ _ I)).
    exact H.
  - rewrite (sort_value_head key h t (listed a) (listed b) Hk).
    + apply value_leb_refl.
    + now rewrite !get_listed_other, Ha, Hb.
Qed.

Lemma is_desc_spec (sortType : option string) :
  is_desc sortType = true <-> sortType = Some "desc".
Proof.
  destruct sortType as [t|]; simpl; [|split; discriminate].
  rewrite String.eqb_eq. split; congruence.
Qed.

(** C5.  On every answered listing, the values the records of the page
    have at the sort key are non-increasing down the page when [sortType]
    is "desc", and non-decreasing for any other [sortType], given or not;
    a record without a value at the key counts as null. *)
Theorem getAllVideos_page_is_sorted
        (req : Request) (w w' : World) (resp : Response (list document)) :
  getAllVideos req w = (Return resp, w') ->
  let key := sort_key (sortBy (req_query req)) in
  (sortType (req_query req) = Some "desc" ->
   nonincreasing key (data (json resp)))
  /\ (sortType (req_query req) <> Some "desc" ->
      nondecreasing key (data (json resp))).
Proof.
  intros Hrun key.
  destruct (getAllVideos_answer _ _ _ _ Hrun) as (o & sk & tk & _ & _ & ->).
  set (foreign := collection w "users").
  pose proof (ranked_rows foreign (map video_document (videos w)) o
                (title_regex req) (sortBy (req_query req))
                (sortType (req_query req))) as Hrows.
  fold (ranked_matches w req o) in Hrows.
  assert (Hin : forall d, In d (firstn tk (skipn sk (ranked_matches w req o))) ->
                          joined_row foreign o d).
  { apply Forall_forall, Forall_firstn, Forall_skipn, Hrows. }
  split; intros Hdesc.
  - apply is_desc_spec in Hdesc.
    unfold nonincreasing.
    apply StronglySorted_map
      with (R := fun a b => Engine.descending key a b = true).
    + intros a b Ha Hb. apply (listed_keeps_order foreign o); auto.
    + apply StronglySorted_firstn, StronglySorted_skipn.
      unfold ranked_matches, ranked, sort_order. rewrite Hdesc.
      apply sort_sorted; unfold Engine.descending.
      * intros a b. destruct (value_leb_total (sort_value key a) (sort_value key b));
          auto.
      * intros a b c H1 H2. exact (value_leb_trans _ _ _ H2 H1).
  - assert (Hasc : is_desc (sortType (req_query req)) = false).
    { destruct (is_desc _) eqn:E; [|reflexivity].
      apply is_desc_spec in E. contradiction. }
    unfold nondecreasing.
    apply StronglySorted_map
      with (R := fun a b => Engine.ascending key a b = true).
    + intros a b Ha Hb. apply (listed_keeps_order foreign o); auto.
    + apply StronglySorted_firstn, StronglySorted_skipn.
      unfold ranked_matches, ranked, sort_order. rewrite Hasc.
      apply sort_sorted; unfold Engine.ascending.
      * intros a b. apply value_leb_total.
      * intros a b c. apply value_leb_trans.
Qed.

End ListingOrder.

(** ** The handlers on the sample data *)

Import Sample.

(** A title of one no-break space is blank, and an identifier written in
    upper case finds the video stored under it. *)
Example no_break_space_is_blank :
  blank (Some (String (ascii_of_nat 194) (String (ascii_of_nat 160) EmptyString)))
  = true.
Proof. reflexivity. Qed.

Example upper_case_identifier_finds_video :
  find (has_id (P := reference) "65F100000000000000000000") (videos world)
  = Some cat_naps.
Proof. reflexivity. Qed.

(** A page number beyond the binary64 range converts to an infinity and is
    refused. *)
Example overflowing_page_is_rejected :
  rejected (P := reference)
           (listing (Some "1e400") (Some "2") (Some "cat") None None alice_id)
  = true.
Proof. vm_compute. reflexivity. Qed.

(** C3 (the code departs from the specification).  The request
    [?page=1.5&limit=2&query=cat&sortBy=views&userId=alice] has a page
    number that is no integer, and is not answered with the Validation
    error: the guard tests that the number is finite and not below 1, not
    that it is an integer, although its message asks for a positive
    integer.  The database is asked, with [$skip] at [(1.5 - 1) * 2 = 1],
    and the answer is a 200 envelope with the records ranked second and
    third. *)
Theorem getAllVideos_accepts_fractional_page :
  isInteger (pageNum page_and_a_half) = false
  /\ rejected (P := reference) page_and_a_half = false
  /\ exists rows,
      getAllVideos (P := reference) page_and_a_half world
      = (Return (respond 200
                   (new_ApiResponse 200 rows "All videos fetched successfully")),
         record (Aggregated
                   (listing_pipeline (user_id alice)
                      {| source := "cat"; flags := "i" |} (Some "views") None
                      (of_Z 1) (of_Z 2))) world)
      /\ map (get "title") rows = [Some (Str "Tomcat"); Some (Str "Cat naps")].
Proof.
  split; [reflexivity|]. split; [reflexivity|].
  eexists. split; vm_compute; reflexivity.
Qed.


(** A listing without [userId]: the match is on the identifier the
    platform makes from [undefined]. *)
Lemma getAllVideos_always_filters_by_owner_witness :
  exists rest,
    log (snd (getAllVideos (P := reference) anyones world))
    = [Aggregated (Match "65f000000000000000000000" true
                         {| source := "cat"; flags := "i" |} :: rest)]
    /\ forall resp, fst (getAllVideos (P := reference) anyones world) = Return resp ->
                    Forall (fun row => get "owner" row
                                       = Some (Oid "65f000000000000000000000"))
                           (data (json resp)).
Proof.
  destruct (getAllVideos_always_filters_by_owner
              (P := reference) anyones world
              (issued_pipeline anyones "65f000000000000000000000") eq_refl)
    as (o & rest & Ho & Hp & Hrows).
  inversion Ho; subst o. exists rest. split; [|exact Hrows].
  change (log (snd (getAllVideos (P := reference) anyones world)))
    with [Aggregated (issued_pipeline anyones "65f000000000000000000000")].
  rewrite Hp. reflexivity.
Defined.

(** A listing by descending views. *)
Lemma getAllVideos_page_is_sorted_witness :
  exists resp,
    fst (getAllVideos (P := reference) most_viewed world) = Return resp
    /\ map (get "views") (data (json resp))
       = [Some (Num (of_Z 40)); Some (Num (of_Z 20))]
    /\ nonincreasing (P := reference) "views" (data (json resp)).
Proof.
  destruct (getAllVideos (P := reference) most_viewed world)
    as [[resp|e] w'] eqn:H; [|vm_compute in H; discriminate].
  exists resp. split; [reflexivity|]. split.
  - vm_compute in H. inversion H. reflexivity.
  - exact (proj1 (getAllVideos_page_is_sorted most_viewed _ _ _ H) eq_refl).
Defined.

(** Alice publishes a video; both uploads succeed. *)
Lemma publishAVideo_persists_then_throws_witness :
  publishable kitten "/tmp/v1.mp4" "/tmp/t1.png"
  /\ exists v : VideoDoc,
      duration v = Some (Finite (25 # 2))
      /\ owner v = user_id alice
      /\ fst (publishAVideo (P := reference) kitten world)
         = Throw (TypeError "Video.findbyId is not a function")
      /\ videos (snd (publishAVideo (P := reference) kitten world))
         = (videos world ++ [v])%list.
Proof.
  assert (H : publishable kitten "/tmp/v1.mp4" "/tmp/t1.png").
  { repeat split; try reflexivity; do 3 eexists; repeat split; reflexivity. }
  split; [exact H|].
  destruct (publishAVideo_persists_then_throws
              (P := reference) kitten world _ _
              {| url := "http://media/v1.mp4";
                 asset_duration := Some (Finite (25 # 2)) |}
              {| url := "http://media/t1.png"; asset_duration := None |}
              alice H eq_refl eq_refl eq_refl eq_refl eq_refl)
    as (v & Hd & Ho & E).
  exists v. rewrite E. repeat split; assumption.
Defined.

(** The video upload fails. *)
Lemma publishAVideo_uploads_in_order_and_fails_without_cleanup_witness :
  publishable lost_kitten "/var/v1.mp4" "/tmp/t1.png"
  /\ fst (publishAVideo (P := reference) lost_kitten world)
     = Throw (ApiError 500
                "Something went wrong while uploading the video or thumbnail")
  /\ log (snd (publishAVideo (P := reference) lost_kitten world))
     = [Uploaded "/var/v1.mp4"; Uploaded "/tmp/t1.png"]
  /\ videos (snd (publishAVideo (P := reference) lost_kitten world)) = videos world.
Proof.
  assert (H : publishable lost_kitten "/var/v1.mp4" "/tmp/t1.png").
  { repeat split; try reflexivity; do 3 eexists; repeat split; reflexivity. }
  split; [exact H|].
  exact (proj2 (publishAVideo_uploads_in_order_and_fails_without_cleanup
                  (P := reference) lost_kitten world _ _ H)
               (or_introl eq_refl)).
Defined.

(** A retrieval of an identifier under which nothing is stored. *)
Lemma getVideoById_throws_before_lookup_witness :
  find (has_id "65f1000000000000000000ff") (videos world) = None
  /\ getVideoById (P := reference) (retrieval (Some "65f1000000000000000000ff")) world
     = (Throw (TypeError "Video.findbyId is not a function"), world).
Proof.
  split; [reflexivity|].
  apply (getVideoById_throws_before_lookup (P := reference)). reflexivity.
Defined.

(** Bob tries to update a video of Alice, with valid input. *)
Lemma updateVideo_by_non_owner_is_refused_witness :
  updatable (P := reference) theft "/tmp/t2.png"
  /\ updateVideo (P := reference) theft world
     = (Throw (ApiError 403 "You are not authorized to update this video"),
        record (Read (Some cat_naps_id)) world).
Proof.
  assert (H : updatable (P := reference) theft "/tmp/t2.png").
  { repeat split; try reflexivity. do 3 eexists. repeat split; reflexivity. }
  split; [exact H|].
  assert (N : option_map user_id (req_user theft) <> Some (owner cat_naps))
    by discriminate.
  exact (proj2 (proj2 (proj2
           (updateVideo_by_non_owner_is_refused
              (P := reference) theft world cat_naps_id cat_naps
              eq_refl eq_refl N))) _ H).
Defined.

(** Alice updates her video; the old thumbnail goes last. *)
Lemma updateVideo_deletes_old_thumbnail_once_after_write_witness :
  exists resp,
    fst (updateVideo (P := reference) sequel world) = Return resp
    /\ log (snd (updateVideo (P := reference) sequel world))
       = [ Read (Some cat_naps_id);
           Uploaded "/tmp/t2.png";
           Updated (Some cat_naps_id) "Cat naps II" "more naps"
                   "http://media/t2.png";
           Deleted "http://media/Cat naps.png" ].
Proof.
  destruct (updateVideo (P := reference) sequel world)
    as [[resp|e] w'] eqn:H; [|vm_compute in H; discriminate].
  exists resp. split; [reflexivity|].
  destruct (updateVideo_deletes_old_thumbnail_once_after_write
              (P := reference) sequel world w' resp cat_naps_id cat_naps
              H eq_refl eq_refl eq_refl)
    as (p & asset & Hsend & Hmedia & _ & Hlog).
  destruct Hsend as (fs & f & rest & Hfs & Hf & Hpath & _).
  inversion Hfs; subst fs. inversion Hf; subst f rest. simpl in Hpath. subst p.
  inversion Hmedia; subst asset. exact Hlog.
Defined.

(** The files object is there and the field is not. *)
Lemma absent_file_field_throws_TypeError_witness :
  publishAVideo (P := reference) no_kitten world
  = (Throw (TypeError "Cannot read properties of undefined (reading '0')"), world)
  /\ updateVideo (P := reference) bare_sequel world
     = (Throw (TypeError "Cannot read properties of undefined (reading '0')"), world).
Proof.
  split.
  - exact (proj1 (absent_file_field_throws_TypeError
                    (P := reference) no_kitten world _ eq_refl) eq_refl).
  - exact (proj1 (proj2 (absent_file_field_throws_TypeError
                           (P := reference) bare_sequel world _ eq_refl)) eq_refl).
Defined.

(** C10, as stated, fails: an update request whose files object has no
    [thumbnail] field and whose video identifier is ill-formed is answered
    with the Validation error 400, not with a TypeError. *)
Lemma updateVideo_checks_identifier_before_files :
  ~ (forall (req : Request) (w : World) (fs : Files),
        req_files req = Some fs -> files_thumbnail fs = None ->
        exists m w', updateVideo (P := reference) req w = (Throw (TypeError m), w')).
Proof.
  intros H.
  destruct (H bare_sequel_of_nothing world _ eq_refl eq_refl) as (m & w' & E).
  vm_compute in E. discriminate.
Qed.


(** * Further properties of the handlers *)

(** ** Updating: every way the workflow ends *)

Section UpdateOutcomes.
Context {P : Platform}.

Lemma first_path_readable (req : Request) field (w : World) :
  field_readable req field ->
  first_path (req_files req) field w = (Return (path_under req field), w).
Proof.
  unfold field_readable, first_path, path_under. intros H.
  destruct (req_files req) as [fs|]; [|reflexivity].
  specialize (H fs eq_refl).
  destruct (field fs) as [[|f r]|]; [reflexivity | reflexivity | contradiction].
Qed.

Lemma sends_file_path_under (req : Request) field (p : string) :
  sends_file req field p -> path_under req field = Some p.
Proof.
  intros (fs & f & rest & Hfs & Hf & <- & _). unfold path_under.
  now rewrite Hfs, Hf.
Qed.

Lemma find_update_first (id : string) (f : VideoDoc -> VideoDoc)
      (vs : list VideoDoc) :
  (forall v, _id (f v) = _id v) ->
  find (has_id id) (update_first id f vs) = option_map f (find (has_id id) vs).
Proof.
  intros Hf. induction vs as [|v r IH]; simpl; [reflexivity|].
  destruct (has_id id v) eqn:E; simpl.
  - unfold has_id in *. now rewrite Hf, E.
  - now rewrite E, IH.
Qed.

Lemma has_id_kept (id : string) (f : VideoDoc -> VideoDoc) (v : VideoDoc) :
  _id (f v) = _id v -> has_id id (f v) = has_id id v.
Proof. intros H. unfold has_id. now rewrite H. Qed.

Lemma find_update_first_other (id id' : string) (f : VideoDoc -> VideoDoc)
      (vs : list VideoDoc) :
  ~ same_id id id' -> (forall v, _id (f v) = _id v) ->
  find (has_id id') (update_first id f vs) = find (has_id id') vs.
Proof.
  intros N Hf. induction vs as [|v r IH]; simpl; [reflexivity|].
  destruct (has_id id v) eqn:E; simpl.
  - rewrite (has_id_kept _ _ _ (Hf v)).
    destruct (has_id id' v) eqn:E'; [|reflexivity].
    exfalso. apply N. exists (_id v). split; now apply has_id_cast.
  - destruct (has_id id' v); [reflexivity | exact IH].
Qed.

Lemma length_update_first (id : string) (f : VideoDoc -> VideoDoc)
      (vs : list VideoDoc) :
  length (update_first id f vs) = length vs.
Proof.
  induction vs as [|v r IH]; simpl; [reflexivity|].
  destruct (has_id id v); simpl; congruence.
Qed.

(** The whole of [updateVideo] on a request that passes its first three
    checks. *)
Lemma updateVideo_run (req : Request) (w : World) (id p : string) :
  updatable req p -> req_videoId req = Some id ->
  updateVideo req w =
  let w1 := record (Read (Some id)) w in
  match cast_ObjectId id with
  | None => (Throw cast_error, w)
  | Some _ =>
      match find (has_id id) (videos w) with
      | None => (Throw (ApiError 404 "Video not found"), w1)
      | Some video =>
          if not_owner (req_user req) video
          then (Throw (ApiError 403 "You are not authorized to update this video"),
                w1)
          else
            let w2 := record (Uploaded p) w1 in
            match media w p with
            | None =>
                (Throw (ApiError 500 "Failed to upload the new thumbnail"), w2)
            | Some asset =>
                let vs := update_first id (updated_by req asset) (videos w) in
                let w3 :=
                  record (Updated (Some id) (text (body_title (req_body req)))
                                  (text (body_description (req_body req)))
                                  (url asset))
                         (with_videos vs w2) in
                (Return (respond 200
                           (new_ApiResponse 200 (find (has_id id) vs)
                                            "The video is updated successfully")),
                 if JsString.truthy (thumbnail video)
                 then record (Deleted (thumbnail video)) w3 else w3)
            end
      end
  end.
Proof.
  intros (Hvalid & Hsend & Ht & Hd) Hid. unfold updateVideo.
  rewrite bind_pass by (now rewrite Hvalid).
  rewrite (first_path_sends _ _ _ Hsend), bind_ret.
  rewrite bind_pass by (now rewrite (sends_file_truthy _ _ _ Hsend)).
  rewrite bind_pass by (now rewrite Ht, Hd).
  rewrite Hid.
  unfold bind at 1, Video_findById. cbv zeta.
  destruct (cast_ObjectId id) as [o|] eqn:Hcast; [|reflexivity].
  destruct (find (has_id id) (videos w)) as [video|]; [|reflexivity].
  destruct (not_owner (req_user req) video) eqn:Hno;
    [rewrite bind_stop by reflexivity; reflexivity
    | rewrite bind_pass by reflexivity].
  unfold bind at 1, uploadOnCloudinary. simpl.
  destruct (media w p) as [asset|]; [|reflexivity].
  unfold bind, Video_findByIdAndUpdate, deleteFromCloudinary, emit, ret.
  rewrite Hcast. simpl.
  destruct (JsString.truthy (thumbnail video)); reflexivity.
Qed.

(** The same, on a video that is stored. *)
Lemma updateVideo_run_found (req : Request) (w : World) (id p : string)
      (video : VideoDoc) :
  updatable req p -> req_videoId req = Some id ->
  find (has_id id) (videos w) = Some video ->
  updateVideo req w =
  let w1 := record (Read (Some id)) w in
  if not_owner (req_user req) video
  then (Throw (ApiError 403 "You are not authorized to update this video"), w1)
  else
    let w2 := record (Uploaded p) w1 in
    match media w p with
    | None => (Throw (ApiError 500 "Failed to upload the new thumbnail"), w2)
    | Some asset =>
        let vs := update_first id (updated_by req asset) (videos w) in
        let w3 :=
          record (Updated (Some id) (text (body_title (req_body req)))
                          (text (body_description (req_body req))) (url asset))
                 (with_videos vs w2) in
        (Return (respond 200
                   (new_ApiResponse 200 (find (has_id id) vs)
                                    "The video is updated successfully")),
         if JsString.truthy (thumbnail video)
         then record (Deleted (thumbnail video)) w3 else w3)
    end.
Proof.
  intros Hu Hid Hfind. rewrite (updateVideo_run _ _ _ _ Hu Hid).
  now rewrite (find_has_id_cast _ _ _ Hfind), Hfind.
Qed.

Lemma is_owner_spec (user : option User) (video : VideoDoc) :
  not_owner user video = false <-> option_map user_id user = Some (owner video).
Proof.
  destruct user as [u|]; simpl.
  - rewrite negb_false_iff, String.eqb_eq. split; congruence.
  - split; discriminate.
Qed.

(** A request that does not pass the first three checks of [updateVideo]
    is answered with an error and leaves the world as it was. *)
Lemma updateVideo_stops_or_updatable (req : Request) (w : World) :
  (exists e, updateVideo req w = (Throw e, w)) \/ (exists p, updatable req p).
Proof.
  unfold updateVideo, updatable, sends_file.
  destruct (isValidObjectId (req_videoId req)) eqn:Hvalid;
    [rewrite bind_pass by reflexivity | rewrite bind_stop by reflexivity; eauto].
  unfold first_path.
  destruct (req_files req) as [fs|];
    [|left; rewrite bind_ret, bind_stop by reflexivity; eauto].
  destruct (files_thumbnail fs) as [[|f rest]|] eqn:Hf;
    [left; rewrite bind_ret, bind_stop by reflexivity; eauto
    | | left; eexists; reflexivity].
  rewrite bind_ret.
  destruct (JsString.truthy (path f)) eqn:Hp;
    [rewrite bind_pass by (simpl; now rewrite Hp)
    | rewrite bind_stop by (simpl; now rewrite Hp); eauto].
  destruct (blank (body_title (req_body req)) || blank (body_description (req_body req)))
    eqn:Hb; [rewrite bind_stop by reflexivity; eauto|].
  apply orb_false_elim in Hb as [Ht Hd].
  right. exists (path f). repeat split; auto. eauto 8.
Qed.

(** X1.  The input checks of [updateVideo] come in this order, each
    answered with its own Validation error 400, and none of them asks
    anything of the database or the media store: an identifier that is
    not well formed; then (when reading it does not throw) a missing or
    empty thumbnail path, which is also the answer to a request without
    files; then a blank title or description. *)
Theorem updateVideo_rejects_bad_input (req : Request) (w : World) :
  (isValidObjectId (req_videoId req) = false ->
   updateVideo req w = (Throw (ApiError 400 "Invalid video ID"), w))
  /\ (isValidObjectId (req_videoId req) = true ->
      field_readable req files_thumbnail ->
      JsString.truthy_opt (path_under req files_thumbnail) = false ->
      updateVideo req w = (Throw (ApiError 400 "No thumbnail file detected"), w))
  /\ (isValidObjectId (req_videoId req) = true ->
      field_readable req files_thumbnail ->
      JsString.truthy_opt (path_under req files_thumbnail) = true ->
      blank (body_title (req_body req)) || blank (body_description (req_body req))
      = true ->
      updateVideo req w
      = (Throw (ApiError 400 "Title and description are required fields"), w)).
Proof.
  unfold updateVideo. repeat split.
  - intros H. now rewrite bind_stop by (now rewrite H).
  - intros H Hr Hp. rewrite bind_pass by (now rewrite H).
    unfold bind at 1. rewrite (first_path_readable _ _ _ Hr).
    now rewrite bind_stop by (now rewrite Hp).
  - intros H Hr Hp Hb. rewrite bind_pass by (now rewrite H).
    unfold bind at 1. rewrite (first_path_readable _ _ _ Hr).
    rewrite bind_pass by (now rewrite Hp).
    now rewrite bind_stop by exact Hb.
Qed.

(** X2.  An update with otherwise valid input under a string that denotes
    an identifier no stored video has (whatever the case of its digits) is
    answered with the NotFound error 404 after the one read: the new
    thumbnail is not uploaded and nothing is written. *)
Theorem updateVideo_unknown_video
        (req : Request) (w : World) (id p : string) (o : ObjectId) :
  updatable req p -> req_videoId req = Some id ->
  cast_ObjectId id = Some o ->
  (forall v, In v (videos w) -> _id v <> o) ->
  updateVideo req w
  = (Throw (ApiError 404 "Video not found"), record (Read (Some id)) w).
Proof.
  intros Hu Hid Hcast Hnone. rewrite (updateVideo_run _ _ _ _ Hu Hid), Hcast.
  destruct (find (has_id id) (videos w)) as [v|] eqn:Hfind; [|reflexivity].
  exfalso. apply (Hnone v); [now apply find_some in Hfind|].
  apply find_has_id_cast in Hfind. congruence.
Qed.

(** X3.  When the owner's update fails at the upload of the new thumbnail,
    the answer is the Internal error 500 and the video is as it was: the
    record is not written and the old thumbnail is not deleted; the calls
    made are the read and the one upload. *)
Theorem updateVideo_failed_upload_keeps_record
        (req : Request) (w : World) (id p : string) (video : VideoDoc) :
  updatable req p -> req_videoId req = Some id ->
  find (has_id id) (videos w) = Some video ->
  option_map user_id (req_user req) = Some (owner video) ->
  media w p = None ->
  fst (updateVideo req w)
  = Throw (ApiError 500 "Failed to upload the new thumbnail")
  /\ videos (snd (updateVideo req w)) = videos w
  /\ log (snd (updateVideo req w))
     = (log w ++ [Read (Some id); Uploaded p])%list.
Proof.
  intros Hu Hid Hfind Hown Hm. apply is_owner_spec in Hown.
  rewrite (updateVideo_run_found _ _ _ _ _ Hu Hid Hfind), Hown, Hm.
  cbv zeta. simpl.
  repeat split. now rewrite <- app_assoc.
Qed.

(** X4.  The owner's update with valid input and a successful upload is
    answered 200 with the stored record as it is after the write: title,
    description and thumbnail are the new ones and every other field,
    the owner among them, is what it was.  The calls are the read, the
    upload, the write and, only when the video had a thumbnail, the
    deletion of that old thumbnail. *)
Theorem updateVideo_by_owner_succeeds
        (req : Request) (w : World) (id p : string) (video : VideoDoc)
        (asset : Asset) :
  updatable req p -> req_videoId req = Some id ->
  find (has_id id) (videos w) = Some video ->
  option_map user_id (req_user req) = Some (owner video) ->
  media w p = Some asset ->
  let video' := updated_by req asset video in
  let w' := snd (updateVideo req w) in
  fst (updateVideo req w)
  = Return (respond 200
              (new_ApiResponse 200 (Some video')
                               "The video is updated successfully"))
  /\ find (has_id id) (videos w') = Some video'
  /\ (title video' = text (body_title (req_body req))
      /\ description video' = text (body_description (req_body req))
      /\ thumbnail video' = url asset)
  /\ (_id video' = _id video /\ owner video' = owner video
      /\ videoFile video' = videoFile video /\ duration video' = duration video
      /\ views video' = views video /\ isPublished video' = isPublished video
      /\ createdAt video' = createdAt video)
  /\ log w'
     = (log w
        ++ [ Read (Some id); Uploaded p;
             Updated (Some id) (text (body_title (req_body req)))
                     (text (body_description (req_body req))) (url asset) ]
        ++ (if JsString.truthy (thumbnail video)
            then [Deleted (thumbnail video)] else []))%list.
Proof.
  intros Hu Hid Hfind Hown Hm. apply is_owner_spec in Hown. cbv zeta.
  rewrite (updateVideo_run_found _ _ _ _ _ Hu Hid Hfind), Hown, Hm. cbv zeta.
  assert (F : find (has_id id)
                (update_first id (updated_by req asset) (videos w))
              = Some (updated_by req asset video)).
  { rewrite find_update_first by reflexivity. now rewrite Hfind. }
  rewrite F. simpl fst. simpl snd.
  destruct (JsString.truthy (thumbnail video)); simpl;
    repeat split; auto; now rewrite <- !app_assoc.
Qed.

(** X5.  However an update request ends, it changes at most the video it
    names: a string that does not denote the identifier the request's
    [videoId] denotes finds what it found before, no video is added or
    removed, and the users are as they were. *)
Theorem updateVideo_touches_one_video
        (req : Request) (w : World) (other : string) :
  (forall id, req_videoId req = Some id -> ~ same_id id other) ->
  find (has_id other) (videos (snd (updateVideo req w)))
  = find (has_id other) (videos w)
  /\ length (videos (snd (updateVideo req w))) = length (videos w)
  /\ users (snd (updateVideo req w)) = users w.
Proof.
  intros Hother.
  destruct (updateVideo_stops_or_updatable req w) as [(e & E)|(p & Hu)].
  { rewrite E. auto. }
  destruct (req_videoId req) as [id|] eqn:Hid.
  - assert (N : ~ same_id id other) by (apply Hother; reflexivity).
    rewrite (updateVideo_run _ _ _ _ Hu Hid). cbv zeta.
    destruct (cast_ObjectId id) as [o|]; [|simpl; auto].
    destruct (find (has_id id) (videos w)) as [video|]; [|simpl; auto].
    destruct (not_owner (req_user req) video); [simpl; auto|].
    destruct (media w p) as [asset|]; [|simpl; auto].
    destruct (JsString.truthy (thumbnail video)); simpl;
      rewrite find_update_first_other, length_update_first by (auto; reflexivity);
      auto.
  - destruct Hu as (Hvalid & Hsend & Ht & Hd). unfold updateVideo.
    rewrite bind_pass by (now rewrite Hvalid).
    rewrite (first_path_sends _ _ _ Hsend), bind_ret.
    rewrite bind_pass by (now rewrite (sends_file_truthy _ _ _ Hsend)).
    rewrite bind_pass by (now rewrite Ht, Hd).
    rewrite Hid. simpl. auto.
Qed.

(** X6.  Nothing compares the new thumbnail with the old one.  When the
    media store answers the upload with the address the video already
    has, the successful update ends by deleting the asset at the very
    address it has just written into the record. *)
Theorem updateVideo_same_address_deletes_current
        (req : Request) (w : World) (id p : string) (video : VideoDoc)
        (asset : Asset) :
  updatable req p -> req_videoId req = Some id ->
  find (has_id id) (videos w) = Some video ->
  option_map user_id (req_user req) = Some (owner video) ->
  media w p = Some asset ->
  url asset = thumbnail video ->
  JsString.truthy (thumbnail video) = true ->
  exists (stored : VideoDoc) (before : list event),
    find (has_id id) (videos (snd (updateVideo req w))) = Some stored
    /\ log (snd (updateVideo req w))
       = (before ++ [Deleted (thumbnail stored)])%list.
Proof.
  intros Hu Hid Hfind Hown Hm Hsame Hold. apply is_owner_spec in Hown.
  rewrite (updateVideo_run_found _ _ _ _ _ Hu Hid Hfind), Hown, Hm, Hold.
  cbv zeta.
  simpl snd. exists (updated_by req asset video). eexists. split.
  - simpl. rewrite find_update_first by reflexivity. now rewrite Hfind.
  - simpl. rewrite Hsame. reflexivity.
Qed.

End UpdateOutcomes.

(** ** Creating and retrieving: the checks *)

Section CreateChecks.
Context {P : Platform}.

(** X7.  When reading the two file paths does not throw, [publishAVideo]
    checks the title and description first and the files second, each
    with its own Validation error 400 and before anything is uploaded or
    written; a request without files, or with an empty file array, is
    answered with the second. *)
Theorem publishAVideo_rejects_bad_input (req : Request) (w : World) :
  field_readable req files_videoFile ->
  field_readable req files_thumbnail ->
  (blank (body_title (req_body req)) || blank (body_description (req_body req))
   = true ->
   publishAVideo req w
   = (Throw (ApiError 400 "Tilte and description are required fields"), w))
  /\ (blank (body_title (req_body req)) || blank (body_description (req_body req))
      = false ->
      JsString.truthy_opt (path_under req files_videoFile)
      && JsString.truthy_opt (path_under req files_thumbnail) = false ->
      publishAVideo req w
      = (Throw (ApiError 400 "no video file or thumbnail detected"), w)).
Proof.
  intros Hv Ht.
  split; intros Hb; [|intros Hp]; unfold publishAVideo;
    (unfold bind at 1; rewrite (first_path_readable _ _ _ Hv));
    (unfold bind at 1; rewrite (first_path_readable _ _ _ Ht)).
  - now rewrite bind_stop by exact Hb.
  - rewrite bind_pass by exact Hb.
    now rewrite bind_stop by (now rewrite Hp).
Qed.

Lemma path_under_sends (req : Request) field (p : string) :
  path_under req field = Some p -> JsString.truthy p = true ->
  sends_file req field p.
Proof.
  unfold path_under, sends_file. intros H Hp.
  destruct (req_files req) as [fs|]; [|discriminate].
  destruct (field fs) as [[|f rest]|] eqn:Hf; try discriminate.
  inversion H; subst. eauto 8.
Qed.

Lemma publishAVideo_readable_cases (req : Request) (w : World) :
  field_readable req files_videoFile ->
  field_readable req files_thumbnail ->
  (exists vp tp, publishable req vp tp)
  \/ (exists e, publishAVideo req w = (Throw e, w)).
Proof.
  intros Hv Ht. unfold publishAVideo.
  unfold bind at 1. rewrite (first_path_readable _ _ _ Hv).
  unfold bind at 1. rewrite (first_path_readable _ _ _ Ht).
  destruct (blank (body_title (req_body req))
            || blank (body_description (req_body req))) eqn:Hb;
    [right; rewrite bind_stop by reflexivity; eauto|].
  apply orb_false_elim in Hb as [Hbt Hbd].
  destruct (path_under req files_videoFile) as [vp|] eqn:Hpv;
    [|right; rewrite bind_pass, bind_stop by (now rewrite ?Hbt, ?Hbd); eauto].
  destruct (path_under req files_thumbnail) as [tp|] eqn:Hpt;
    [|right; rewrite bind_pass, bind_stop
        by (rewrite ?Hbt, ?Hbd; simpl; now rewrite ?andb_false_r); eauto].
  destruct (JsString.truthy vp) eqn:Tv;
    [|right; rewrite bind_pass, bind_stop
        by (rewrite ?Hbt, ?Hbd; simpl; now rewrite ?Tv); eauto].
  destruct (JsString.truthy tp) eqn:Tt;
    [|right; rewrite bind_pass, bind_stop
        by (rewrite ?Hbt, ?Hbd; simpl; now rewrite ?Tv, ?Tt); eauto].
  left. exists vp, tp. repeat split; auto using path_under_sends.
Qed.

(** X8.  A create request that does not pass every check is answered with
    an error and nothing else happens: no file is uploaded and no record
    is written unless the title and description are not blank and both
    files are there. *)
Theorem publishAVideo_uploads_only_valid_requests (req : Request) (w : World) :
  (exists vp tp, publishable req vp tp)
  \/ (exists e, publishAVideo req w = (Throw e, w)).
Proof.
  destruct (req_files req) as [fs|] eqn:Hfs.
  - destruct (files_videoFile fs) as [vl|] eqn:Hv.
    2:{ right. unfold publishAVideo, first_path. rewrite Hfs, Hv.
        eexists. reflexivity. }
    destruct (files_thumbnail fs) as [tl|] eqn:Ht.
    2:{ right. unfold publishAVideo, first_path. rewrite Hfs, Hv, Ht.
        destruct vl; eexists; reflexivity. }
    apply publishAVideo_readable_cases;
      intros fs' E; rewrite Hfs in E; inversion E; subst; congruence.
  - apply publishAVideo_readable_cases; intros fs' E; congruence.
Qed.

(** X9.  [getVideoById] never asks the database or the media store
    anything, whatever the request; and without an identifier, or with an
    empty one, the answer is the Validation error 400. *)
Theorem getVideoById_without_identifier (req : Request) (w : World) :
  snd (getVideoById req w) = w
  /\ (JsString.truthy_opt (req_videoId req) = false ->
      fst (getVideoById req w) = Throw (ApiError 400 "There is no such video")).
Proof.
  unfold getVideoById.
  destruct (JsString.truthy_opt (req_videoId req)) eqn:H.
  - rewrite bind_pass by reflexivity. split; [reflexivity | discriminate].
  - rewrite bind_stop by reflexivity. split; reflexivity.
Qed.

(** The two handlers without a body leave the world as it is. *)
Lemma stub_handlers_change_nothing (req : Request) (w : World) :
  deleteVideo req w = (Return tt, w)
  /\ togglePublishStatus req w = (Return tt, w).
Proof. split; reflexivity. Qed.

End CreateChecks.

(** ** Listing: checks, defaults and what never happens *)

Section ListingChecks.
Context {P : Platform}.

Lemma rejected_spec (req : Request) :
  rejected req = true
  <-> bad_number (pageNum req) = true
      \/ bad_number (limitNum req) = true
      \/ blank (query (req_query req)) = true
      \/ (JsString.truthy_opt (userId (req_query req)) = true
          /\ isValidObjectId (userId (req_query req)) = false).
Proof.
  unfold rejected, bad_number.
  rewrite !orb_true_iff, andb_true_iff, !negb_true_iff. tauto.
Qed.

(** X10.  [getAllVideos] answers with the Validation error 400 exactly
    when the page or the limit converts to a number that is not finite or
    is below 1, or the query is absent or blank, or a non-empty [userId]
    is refused by [isValidObjectId]; nothing that comes after these checks
    ends in a 400. *)
Theorem getAllVideos_validation_error_iff (req : Request) (w : World) :
  (exists m w', getAllVideos req w = (Throw (ApiError 400 m), w'))
  <-> bad_number (pageNum req) = true
      \/ bad_number (limitNum req) = true
      \/ blank (query (req_query req)) = true
      \/ (JsString.truthy_opt (userId (req_query req)) = true
          /\ isValidObjectId (userId (req_query req)) = false).
Proof.
  rewrite <- rejected_spec. split.
  - intros (m & w' & H). destruct (rejected req) eqn:R; [reflexivity|].
    rewrite (getAllVideos_accepted _ _ R) in H.
    destruct (Types_ObjectId _); [|discriminate].
    destruct (regexp_accepts _ _); [|discriminate].
    destruct (Engine.run _ _ _) eqn:E; [discriminate|].
    apply run_throws_library in E as (n & m' & ->). discriminate.
  - intros R. destruct (getAllVideos_rejected _ w R) as (m & H). eauto.
Qed.

(** X11.  The checks of [getAllVideos] are made in the order page, limit,
    query, [userId], and the first that fails decides the message; the
    world is left as it was. *)
Theorem getAllVideos_first_failing_check (req : Request) (w : World) :
  (bad_number (pageNum req) = true ->
   getAllVideos req w
   = (Throw (ApiError 400 "Page should be a positive integer"), w))
  /\ (bad_number (pageNum req) = false ->
      bad_number (limitNum req) = true ->
      getAllVideos req w
      = (Throw (ApiError 400 "Video limit should be a positive integer"), w))
  /\ (bad_number (pageNum req) = false ->
      bad_number (limitNum req) = false ->
      blank (query (req_query req)) = true ->
      getAllVideos req w = (Throw (ApiError 400 "Query is required"), w))
  /\ (bad_number (pageNum req) = false ->
      bad_number (limitNum req) = false ->
      blank (query (req_query req)) = false ->
      JsString.truthy_opt (userId (req_query req)) = true ->
      isValidObjectId (userId (req_query req)) = false ->
      getAllVideos req w
      = (Throw (ApiError 400 "Please provide a valid user id"), w)).
Proof.
  unfold bad_number, getAllVideos. fold (pageNum req) (limitNum req).
  repeat split.
  - intros H1. now rewrite bind_stop by exact H1.
  - intros H1 H2. rewrite bind_pass by exact H1.
    now rewrite bind_stop by exact H2.
  - intros H1 H2 H3. rewrite bind_pass by exact H1.
    rewrite bind_pass by exact H2. now rewrite bind_stop by exact H3.
  - intros H1 H2 H3 H4 H5. rewrite bind_pass by exact H1.
    rewrite bind_pass by exact H2. rewrite bind_pass by exact H3.
    now rewrite bind_stop by (now rewrite H4, H5).
Qed.

(** X12.  [getAllVideos] only reads: whatever the request and however it
    ends, the stored videos and users are as they were, and the only call
    it can have made is one aggregation, with the pipeline of the
    request. *)
Theorem getAllVideos_only_reads (req : Request) (w : World) :
  videos (snd (getAllVideos req w)) = videos w
  /\ users (snd (getAllVideos req w)) = users w
  /\ (log (snd (getAllVideos req w)) = log w
      \/ exists o, Types_ObjectId (userId (req_query req)) = Some o
                   /\ log (snd (getAllVideos req w))
                      = (log w ++ [Aggregated (issued_pipeline req o)])%list).
Proof.
  destruct (rejected req) eqn:R.
  - destruct (getAllVideos_rejected _ w R) as (m & ->). simpl. auto.
  - rewrite (getAllVideos_accepted _ _ R).
    destruct (Types_ObjectId _) as [o|]; [|simpl; auto].
    destruct (regexp_accepts _ _); simpl; [|auto].
    repeat split. right. exists o. split; reflexivity.
Qed.

(** The answer to a request that passes validation. *)
Lemma getAllVideos_page (req : Request) (w : World) (p l : Z) (o : ObjectId) :
  listable req p l o ->
  getAllVideos req w
  = (Return (respond 200
               (new_ApiResponse 200
                  (map listed
                       (firstn (Z.to_nat l)
                          (skipn (Z.to_nat ((p - 1) * l)) (ranked_matches w req o))))
                  "All videos fetched successfully")),
     record (Aggregated
               (listing_pipeline o (title_regex req)
                  (sortBy (req_query req)) (sortType (req_query req))
                  (of_Z ((p - 1) * l)) (limitNum req))) w).
Proof.
  intros H.
  pose proof (listable_accepted _ _ _ _ H) as Hacc.
  pose proof (listable_start_index _ _ _ _ H) as Hstart.
  destruct H as (Hp & Hp1 & Hl & Hl1 & Hq & Hu & Ho & Hre & B & Bl & Hsup & Hkey).
  rewrite (getAllVideos_accepted _ _ Hacc), Ho, Hre.
  unfold issued_pipeline. rewrite Hstart, run_listing_pipeline.
  rewrite Hsup, Hkey. cbn [negb].
  rewrite to_Z_of_Z, Hl.
  replace (0 <=? (p - 1) * l) with true by (symmetry; apply Z.leb_le; nia).
  replace ((p - 1) * l <=? Engine.max_long) with true
    by (symmetry; apply Z.leb_le; apply Z.le_trans with (1 := B); discriminate).
  replace (1 <=? l) with true by (symmetry; apply Z.leb_le; lia).
  replace (l <=? Engine.max_long) with true
    by (symmetry; apply Z.leb_le; exact Bl).
  reflexivity.
Qed.

(** X13.  Without [page] and [limit] in the request the listing is the
    first page of ten: when the request passes the other checks and the
    engine takes its regular expression and sort key, the pipeline skips
    nothing and takes ten. *)
Theorem getAllVideos_defaults (req : Request) (w : World) (o : ObjectId) :
  page (req_query req) = None ->
  limit (req_query req) = None ->
  blank (query (req_query req)) = false ->
  (JsString.truthy_opt (userId (req_query req)) = true ->
   isValidObjectId (userId (req_query req)) = true) ->
  Types_ObjectId (userId (req_query req)) = Some o ->
  regexp_accepts (source (title_regex req)) "i" = true ->
  regex_supported (title_regex req) = true ->
  sort_key_accepted (sort_key (sortBy (req_query req))) = true ->
  getAllVideos req w
  = (Return (respond 200
               (new_ApiResponse 200
                  (map listed (firstn 10 (ranked_matches w req o)))
                  "All videos fetched successfully")),
     record (Aggregated
               (listing_pipeline o (title_regex req)
                  (sortBy (req_query req)) (sortType (req_query req))
                  (of_Z 0) (of_Z 10))) w).
Proof.
  intros Hpage Hlimit Hq Hu Ho Hre Hsup Hkey.
  assert (L : listable req 1 10 o).
  { unfold listable, pageNum, limitNum. rewrite Hpage, Hlimit. simpl Number.
    rewrite !to_Z_of_Z. repeat split; auto; try lia; now vm_compute. }
  rewrite (getAllVideos_page _ w _ _ _ L).
  unfold limitNum. rewrite Hlimit. reflexivity.
Qed.

End ListingChecks.

(** ** Listing: what is on a page *)

Section ListingContents.
Context {P : Platform}.

Lemma get_video_owner v : get "owner" (video_document v) = Some (Oid (owner v)).
Proof. unfold video_document. destruct (duration v); reflexivity. Qed.

Lemma get_video_isPublished v :
  get "isPublished" (video_document v) = Some (Bool (isPublished v)).
Proof. unfold video_document. destruct (duration v); reflexivity. Qed.

Lemma get_video_title v : get "title" (video_document v) = Some (Str (title v)).
Proof. unfold video_document. destruct (duration v); reflexivity. Qed.

Lemma matches_video o re v :
  Engine.matches o true re (video_document v) = is_match o re v.
Proof.
  unfold Engine.matches, is_match.
  now rewrite get_video_owner, get_video_isPublished, get_video_title.
Qed.

(** The rows that reach the [$skip] stage are the stored videos that
    match, each joined with its owner. *)
Lemma ranked_matches_rows (w : World) (req : Request) (o : ObjectId) :
  Permutation (joined_matches w req o) (ranked_matches w req o).
Proof.
  unfold joined_matches, ranked_matches, ranked. rewrite <- sort_permutation.
  rewrite filter_map_swap, !map_map.
  erewrite filter_ext; [reflexivity|]. intros v. symmetry. apply matches_video.
Qed.

Lemma page_rows (w : World) (req : Request) (o : ObjectId) (n m : nat) row :
  In row (map listed (firstn n (skipn m (ranked_matches w req o)))) ->
  exists v, In v (videos w) /\ is_match o (title_regex req) v = true
            /\ row = listed_video w v.
Proof.
  intros H. apply in_map_iff in H as (d & <- & Hd).
  assert (Hin : In d (ranked_matches w req o)).
  { assert (F : Forall (fun x => In x (ranked_matches w req o))
                       (firstn n (skipn m (ranked_matches w req o))))
      by (apply Forall_firstn, Forall_skipn, Forall_forall; auto).
    rewrite Forall_forall in F. exact (F d Hd). }
  apply (Permutation_in _ (Permutation_sym (ranked_matches_rows w req o))) in Hin.
  apply in_map_iff in Hin as (v & <- & Hv). apply filter_In in Hv as [Hv Hm].
  exists v. auto.
Qed.

Lemma get_joined_other k foreign d :
  k <> "ownerInfo" ->
  get k (Engine.add_first "ownerInfo" "$ownerInfo"
           (Engine.lookup foreign "owner" "_id" "ownerInfo" d))
  = get k d.
Proof.
  intros N. unfold Engine.add_first, Engine.lookup.
  destruct (Engine.first_of _).
  - now rewrite !get_set_other.
  - now rewrite get_remove_other, get_set_other.
Qed.

Lemma included_not_ownerInfo k : included k = true -> k <> "ownerInfo".
Proof. intros H ->. discriminate. Qed.

(** X14.  Every record of an answered page is a stored video that is
    published, has the requested owner and a title the query matches, and
    shows that video's own identifier, title, asset addresses, views,
    duration, creation time and owner: an unpublished video, a video of
    another owner or one that does not match is never listed. *)
Theorem getAllVideos_lists_only_matches
        (req : Request) (w w' : World) (resp : Response (list document)) :
  getAllVideos req w = (Return resp, w') ->
  exists o,
    Types_ObjectId (userId (req_query req)) = Some o
    /\ Forall
         (fun row =>
            exists v, In v (videos w)
                      /\ isPublished v = true /\ owner v = o
                      /\ regexp_test (title_regex req) (title v) = true
                      /\ forall k, included k = true ->
                                   get k row = get k (video_document v))
         (data (json resp)).
Proof.
  intros H. destruct (getAllVideos_answer _ _ _ _ H) as (o & sk & tk & Ho & _ & ->).
  exists o. split; [exact Ho|]. apply Forall_forall. intros row Hrow.
  destruct (page_rows _ _ _ _ _ _ Hrow) as (v & Hv & Hm & ->).
  exists v. unfold is_match in Hm.
  apply andb_true_iff in Hm as [Hm Hre]. apply andb_true_iff in Hm as [Hown Hpub].
  apply String.eqb_eq in Hown. apply Bool.eqb_prop in Hpub.
  repeat split; auto.
  intros k Hk. unfold listed_video.
  rewrite get_listed_included by exact Hk.
  apply get_joined_other, included_not_ownerInfo, Hk.
Qed.

(** X15.  The number of records on the page of a valid request is what is
    left of the matching stored videos after [(p - 1) * l] of them, up to
    [l]: the last page may be short, and a page past the end is an empty
    200 answer, not an error. *)
Theorem getAllVideos_page_length
        (req : Request) (w : World) (p l : Z) (o : ObjectId) :
  listable req p l o ->
  exists resp,
    fst (getAllVideos req w) = Return resp
    /\ length (data (json resp))
       = Nat.min (Z.to_nat l)
                 (length (filter (is_match o (title_regex req)) (videos w))
                  - Z.to_nat ((p - 1) * l)).
Proof.
  intros H. rewrite (getAllVideos_page _ w _ _ _ H). eexists.
  split; [reflexivity|]. simpl data.
  rewrite length_map, length_firstn, length_skipn.
  rewrite <- (Permutation_length (ranked_matches_rows w req o)).
  unfold joined_matches. rewrite length_map.
  reflexivity.
Qed.

Lemma firstn_then_next {A} (n m : nat) (l : list A) :
  (firstn n l ++ firstn m (skipn n l))%list = firstn (n + m) l.
Proof.
  revert l. induction n as [|n IH]; intros [|x r]; simpl; auto.
  - now rewrite firstn_nil.
  - now rewrite IH.
Qed.

Lemma same_listing_ranked (a b : Request) (w : World) (o : ObjectId) :
  same_listing a b -> ranked_matches w a o = ranked_matches w b o.
Proof.
  intros (_ & Hq & Hs & Ht & _). unfold ranked_matches, title_regex.
  now rewrite Hq, Hs, Ht.
Qed.

Lemma sort_order_total (sortBy sortType : option string) (a b : document) :
  sort_order sortBy sortType a b = true \/ sort_order sortBy sortType b a = true.
Proof.
  unfold sort_order, Engine.descending, Engine.ascending.
  destruct (is_desc sortType); apply value_leb_total.
Qed.

Lemma sort_order_trans (sortBy sortType : option string) (a b c : document) :
  sort_order sortBy sortType a b = true -> sort_order sortBy sortType b c = true ->
  sort_order sortBy sortType a c = true.
Proof.
  unfold sort_order, Engine.descending, Engine.ascending.
  destruct (is_desc sortType); intros H1 H2.
  - exact (value_leb_trans _ _ _ H2 H1).
  - exact (value_leb_trans _ _ _ H1 H2).
Qed.

(** Without ties, whatever order of the matching rows the engine sorts
    them into is the order of [ranked_matches]. *)
Lemma ranked_matches_unique (w : World) (req : Request) (o : ObjectId)
      (sorted : list document) :
  distinct_keys (sort_key (sortBy (req_query req))) (joined_matches w req o) ->
  Permutation (joined_matches w req o) sorted ->
  sorted_by (sortBy (req_query req)) (sortType (req_query req)) sorted ->
  sorted = ranked_matches w req o.
Proof.
  intros Hd Hperm Hsorted. symmetry.
  apply (sorted_unique (sort_order (sortBy (req_query req))
                                   (sortType (req_query req)))).
  - intros a b Ha Hb Hab Hba.
    pose proof (Permutation_sym (ranked_matches_rows w req o)) as Hrows.
    apply (Permutation_in _ Hrows) in Ha. apply (Permutation_in _ Hrows) in Hb.
    revert Hab Hba. unfold sort_order, Engine.descending, Engine.ascending.
    destruct (is_desc _); intros Hab Hba; apply Hd; auto.
  - rewrite <- Hperm. apply Permutation_sym, ranked_matches_rows.
  - unfold ranked_matches, ranked. apply sort_sorted.
    + apply sort_order_total.
    + apply sort_order_trans.
  - exact Hsorted.
Qed.

(** X16.  Two requests that differ only in asking for page [p] and page
    [p + 1] get, on an unchanged store whose matching videos differ in
    their values at the sort key, adjacent windows of the matches in
    their sorted order: the second page starts where the first ends, so
    no record is repeated or left out between them. *)
Theorem getAllVideos_consecutive_pages
        (this next : Request) (w : World) (p l : Z) (o : ObjectId) :
  same_listing this next ->
  listable this p l o ->
  listable next (p + 1) l o ->
  distinct_keys (sort_key (sortBy (req_query this))) (joined_matches w this o) ->
  exists first second,
    fst (getAllVideos this w) = Return first
    /\ fst (getAllVideos next w) = Return second
    /\ forall sorted,
         Permutation (joined_matches w this o) sorted ->
         sorted_by (sortBy (req_query this)) (sortType (req_query this)) sorted ->
         (data (json first) ++ data (json second))%list
         = map listed
               (firstn (Z.to_nat l + Z.to_nat l)
                  (skipn (Z.to_nat ((p - 1) * l)) sorted)).
Proof.
  intros Hsame Ha Hb Hd.
  rewrite (getAllVideos_page _ w _ _ _ Ha), (getAllVideos_page _ w _ _ _ Hb).
  do 2 eexists. split; [reflexivity|]. split; [reflexivity|].
  intros sorted Hperm Hsorted.
  rewrite (ranked_matches_unique _ _ _ _ Hd Hperm Hsorted). simpl data.
  rewrite <- (same_listing_ranked _ _ w o Hsame), <- map_app. f_equal.
  destruct Ha as (_ & Hp1 & _ & Hl1 & _).
  replace (Z.to_nat ((p + 1 - 1) * l))
    with (Z.to_nat l + Z.to_nat ((p - 1) * l))%nat.
  - rewrite <- skipn_skipn. apply firstn_then_next.
  - rewrite <- Z2Nat.inj_add by nia. f_equal. lia.
Qed.

Lemma joined_users (us : list User) (o : ObjectId) :
  Engine.first_of
    (Some (Arr (Engine.joined (map user_document us) "_id" (Some (Oid o)))))
  = option_map (fun u => Doc (user_document u))
               (find (fun u => String.eqb o (user_id u)) us).
Proof.
  unfold Engine.joined. induction us as [|u r IH]; simpl; [reflexivity|].
  destruct (String.eqb o (user_id u)); [reflexivity | exact IH].
Qed.

(** X17.  Besides the video's own fields a record of an answered page
    carries the full name and the avatar of the user stored under the
    owner's identifier, and carries neither of them when no such user is
    stored (the record is still listed); the description, the publication
    flag and the joined owner document are never part of a record. *)
Theorem getAllVideos_owner_fields
        (req : Request) (w w' : World) (resp : Response (list document)) :
  getAllVideos req w = (Return resp, w') ->
  exists o,
    Types_ObjectId (userId (req_query req)) = Some o
    /\ Forall
         (fun row =>
            get "ownerName" row
            = option_map (fun u => Str (fullName u)) (owner_of w o)
            /\ get "ownerAvatar" row
               = option_map (fun u => Str (avatar u)) (owner_of w o)
            /\ get "description" row = None
            /\ get "isPublished" row = None
            /\ get "ownerInfo" row = None)
         (data (json resp)).
Proof.
  intros H. destruct (getAllVideos_answer _ _ _ _ H) as (o & sk & tk & Ho & _ & ->).
  exists o. split; [exact Ho|].
  rewrite Forall_map. apply Forall_firstn, Forall_skipn.
  eapply Forall_impl; [|apply ranked_rows].
  intros d [_ Hinfo].
  rewrite !get_listed_other by reflexivity. rewrite Hinfo.
  unfold owner_info, owner_of. change (collection w "users") with
    (map user_document (users w)).
  rewrite joined_users.
  destruct (find _ (users w)) as [u|]; repeat split; reflexivity.
Qed.

End ListingContents.

(** ** The user routes: what runs without a verified token *)

Section UserRoutesGuards.
Import UserRoutes.

(** Finds the route of a request by cases on the pattern. *)
Ltac by_route p :=
  unfold serve, route_for, router; cbn [find pattern method];
  repeat match goal with
         | |- context [String.eqb ?a p] =>
             destruct (String.eqb_spec a p) as [<-|?];
             cbn [andb verb_eqb chain handler run_chain]
         end.

(** X18.  When token verification does not let a request through, the
    only controllers of the user router that can still be reached are
    registration, login, token refresh and the update of the account
    details: every other route stops at [verifyJWT]. *)
Theorem unverified_requests_reach_four_controllers
        (passes : middleware -> bool) (m : verb) (p : string)
        (ran : list middleware) (c : controller) :
  passes verifyJWT = false ->
  serve passes m p = (ran, Some c) ->
  In c [registerUser; loginUser; refreshAccessToken; updateAccountDetails].
Proof.
  intros Hno. destruct m; by_route p; rewrite ?Hno;
    repeat match goal with
           | |- context [passes ?x] => destruct (passes x)
           end;
    cbn; intros H; inversion H; subst; simpl; auto; discriminate.
Qed.

(** X19.  On the routes that take a file and verify the token, the token
    is verified first: when verification does not let a request through,
    the upload middleware runs on the registration route only. *)
Theorem uploads_without_token_only_at_register
        (passes : middleware -> bool) (m : verb) (p : string)
        (u : middleware) :
  passes verifyJWT = false ->
  In u (fst (serve passes m p)) -> is_upload u = true ->
  m = POST /\ p = "/register".
Proof.
  intros Hno. destruct m; by_route p; rewrite ?Hno;
    repeat match goal with
           | |- context [passes ?x] => destruct (passes x)
           end;
    cbn; intros H Hu; intuition (subst; try discriminate; auto).
Qed.

End UserRoutesGuards.

(** ** The further properties on the sample data *)

Lemma updateVideo_rejects_bad_input_witness :
  updateVideo (P := reference) sequel_without_files world
  = (Throw (ApiError 400 "No thumbnail file detected"), world).
Proof.
  apply (proj1 (proj2 (updateVideo_rejects_bad_input
                         (P := reference) sequel_without_files world)));
    [reflexivity | intros fs E; discriminate | reflexivity].
Defined.

Lemma updateVideo_unknown_video_witness :
  updateVideo (P := reference) sequel_of_nothing world
  = (Throw (ApiError 404 "Video not found"),
     record (Read (Some "65f1000000000000000000ff")) world).
Proof.
  apply (updateVideo_unknown_video (P := reference) sequel_of_nothing world
           "65f1000000000000000000ff" "/tmp/t2.png" "65f1000000000000000000ff");
    try reflexivity.
  - repeat split; try reflexivity. do 3 eexists. repeat split; reflexivity.
  - intros v Hv. vm_compute in Hv.
    repeat match goal with
           | H : _ \/ _ |- _ => destruct H
           | H : False |- _ => destruct H
           end; subst; discriminate.
Defined.

Lemma updateVideo_failed_upload_keeps_record_witness :
  fst (updateVideo (P := reference) lost_sequel world)
  = Throw (ApiError 500 "Failed to upload the new thumbnail")
  /\ videos (snd (updateVideo (P := reference) lost_sequel world)) = videos world
  /\ log (snd (updateVideo (P := reference) lost_sequel world))
     = [Read (Some cat_naps_id); Uploaded "/var/t2.png"].
Proof.
  apply (updateVideo_failed_upload_keeps_record
           (P := reference) lost_sequel world cat_naps_id "/var/t2.png" cat_naps);
    try reflexivity.
  repeat split; try reflexivity. do 3 eexists. repeat split; reflexivity.
Defined.

Lemma updateVideo_by_owner_succeeds_witness :
  exists video',
    fst (updateVideo (P := reference) sequel world)
    = Return (respond 200
                (new_ApiResponse 200 (Some video')
                                 "The video is updated successfully"))
    /\ title video' = "Cat naps II"
    /\ thumbnail video' = "http://media/t2.png"
    /\ owner video' = user_id alice
    /\ views video' = 40.
Proof.
  assert (U : updatable (P := reference) sequel "/tmp/t2.png").
  { repeat split; try reflexivity. do 3 eexists. repeat split; reflexivity. }
  destruct (updateVideo_by_owner_succeeds
              (P := reference) sequel world cat_naps_id "/tmp/t2.png" cat_naps
              {| url := "http://media/t2.png"; asset_duration := None |}
              U eq_refl eq_refl eq_refl eq_refl)
    as (E & _ & _ & _ & _).
  eexists. split; [exact E|]. repeat split.
Defined.

Lemma updateVideo_touches_one_video_witness :
  find (has_id dog_walks_id) (videos (snd (updateVideo (P := reference) sequel world)))
  = find (has_id dog_walks_id) (videos world)
  /\ length (videos (snd (updateVideo (P := reference) sequel world)))
     = length (videos world)
  /\ users (snd (updateVideo (P := reference) sequel world)) = users world.
Proof.
  apply (updateVideo_touches_one_video (P := reference) sequel world dog_walks_id).
  intros id E (o & Hid & Hother). inversion E; subst id.
  vm_compute in Hid, Hother. congruence.
Defined.

Lemma updateVideo_same_address_deletes_current_witness :
  exists stored before,
    find (has_id cat_naps_id)
         (videos (snd (updateVideo (P := reference) same_picture world)))
    = Some stored
    /\ log (snd (updateVideo (P := reference) same_picture world))
       = (before ++ [Deleted (thumbnail stored)])%list.
Proof.
  apply (updateVideo_same_address_deletes_current
           (P := reference) same_picture world cat_naps_id "/tmp/Cat naps.png"
           cat_naps
           {| url := "http://media/Cat naps.png"; asset_duration := None |});
    try reflexivity.
  repeat split; try reflexivity. do 3 eexists. repeat split; reflexivity.
Defined.

Lemma publishAVideo_rejects_bad_input_witness :
  publishAVideo (P := reference) kitten_without_files world
  = (Throw (ApiError 400 "no video file or thumbnail detected"), world).
Proof.
  apply (proj2 (publishAVideo_rejects_bad_input
                  (P := reference) kitten_without_files world
                  (fun fs E => ltac:(discriminate))
                  (fun fs E => ltac:(discriminate))));
    reflexivity.
Defined.

Lemma getVideoById_without_identifier_witness :
  fst (getVideoById (P := reference) (retrieval None) world)
  = Throw (ApiError 400 "There is no such video").
Proof.
  apply (proj2 (getVideoById_without_identifier
                  (P := reference) (retrieval None) world)).
  reflexivity.
Defined.

Lemma getAllVideos_first_failing_check_witness :
  bad_number (limitNum page_zero) = true
  /\ getAllVideos (P := reference) page_zero world
     = (Throw (ApiError 400 "Page should be a positive integer"), world).
Proof.
  split; [reflexivity|].
  apply (proj1 (getAllVideos_first_failing_check
                  (P := reference) page_zero world)).
  reflexivity.
Defined.

Lemma getAllVideos_defaults_witness :
  exists rows pipeline,
    getAllVideos (P := reference) anyones world
    = (Return (respond 200
                 (new_ApiResponse 200 rows "All videos fetched successfully")),
       record (Aggregated pipeline) world)
    /\ In (Skip (of_Z 0)) pipeline /\ In (Limit (of_Z 10)) pipeline.
Proof.
  do 2 eexists. split.
  - apply (getAllVideos_defaults (P := reference) anyones world
             "65f000000000000000000000");
      try reflexivity. discriminate.
  - simpl. auto 10.
Defined.

Lemma getAllVideos_lists_only_matches_witness :
  exists resp,
    fst (getAllVideos (P := reference) most_viewed world) = Return resp
    /\ Forall
         (fun row =>
            exists v, In v (videos world)
                      /\ isPublished v = true /\ owner v = user_id alice
                      /\ get "_id" row = Some (Oid (_id v)))
         (data (json resp)).
Proof.
  destruct (getAllVideos (P := reference) most_viewed world)
    as [[resp|e] w'] eqn:H; [|vm_compute in H; discriminate].
  exists resp. split; [reflexivity|].
  destruct (getAllVideos_lists_only_matches
              (P := reference) most_viewed world w' resp H)
    as (o & Ho & Hrows).
  inversion Ho; subst o.
  eapply Forall_impl; [|exact Hrows].
  intros row (v & Hv & Hp & Hown & _ & Hk). exists v.
  split; [exact Hv|]. split; [exact Hp|]. split; [exact Hown|].
  exact (Hk "_id" eq_refl).
Defined.

Lemma getAllVideos_page_length_witness :
  exists resp,
    fst (getAllVideos (P := reference) second_page world) = Return resp
    /\ length (data (json resp)) = 1%nat.
Proof.
  assert (L : listable (P := reference) second_page 2 2 (user_id alice)).
  { repeat split; try reflexivity; try lia; now vm_compute. }
  destruct (getAllVideos_page_length (P := reference) second_page world 2 2
              (user_id alice) L) as (resp & E & Hlen).
  exists resp. split; [exact E|]. rewrite Hlen. reflexivity.
Defined.

Lemma getAllVideos_consecutive_pages_witness :
  exists first second,
    fst (getAllVideos (P := reference) first_page world) = Return first
    /\ fst (getAllVideos (P := reference) second_page world) = Return second
    /\ map (get "title") (data (json first) ++ data (json second))%list
       = [Some (Str "cat tricks"); Some (Str "Tomcat"); Some (Str "Cat naps")].
Proof.
  assert (L1 : listable (P := reference) first_page 1 2 (user_id alice)).
  { repeat split; try reflexivity; try lia; now vm_compute. }
  assert (L2 : listable (P := reference) second_page (1 + 1) 2 (user_id alice)).
  { repeat split; try reflexivity; try lia; now vm_compute. }
  assert (S : same_listing first_page second_page) by (repeat split).
  assert (D : distinct_keys (P := reference) "views"
                (joined_matches (P := reference) world first_page (user_id alice))).
  { intros a b Ha Hb. vm_compute in Ha, Hb.
    repeat match goal with
           | H : _ \/ _ |- _ => destruct H
           | H : False |- _ => destruct H
           end; subst;
      first [ intros _ _; reflexivity | vm_compute; intros; discriminate ]. }
  destruct (getAllVideos_consecutive_pages
              (P := reference) first_page second_page world 1 2 (user_id alice)
              S L1 L2 D) as (first & second & E1 & E2 & E).
  exists first, second. split; [exact E1|]. split; [exact E2|].
  rewrite (E (ranked_matches (P := reference) world first_page (user_id alice))).
  - reflexivity.
  - apply ranked_matches_rows.
  - unfold sorted_by, ranked_matches, ranked. apply sort_sorted.
    + apply sort_order_total.
    + apply sort_order_trans.
Defined.

Lemma getAllVideos_owner_fields_witness :
  exists resp,
    fst (getAllVideos (P := reference) most_viewed world) = Return resp
    /\ Forall (fun row => get "ownerName" row = Some (Str "Alice")
                          /\ get "description" row = None)
              (data (json resp)).
Proof.
  destruct (getAllVideos (P := reference) most_viewed world)
    as [[resp|e] w'] eqn:H; [|vm_compute in H; discriminate].
  exists resp. split; [reflexivity|].
  destruct (getAllVideos_owner_fields
              (P := reference) most_viewed world w' resp H)
    as (o & Ho & Hrows).
  inversion Ho; subst o.
  eapply Forall_impl; [|exact Hrows].
  intros row (Hn & _ & Hd & _). split; [exact Hn | exact Hd].
Defined.

Lemma unverified_requests_reach_four_controllers_witness :
  UserRoutes.serve (fun _ => false) UserRoutes.PATCH "/update-account"
  = ([], Some UserRoutes.updateAccountDetails)
  /\ In UserRoutes.updateAccountDetails
        [UserRoutes.registerUser; UserRoutes.loginUser;
         UserRoutes.refreshAccessToken; UserRoutes.updateAccountDetails].
Proof.
  split; [reflexivity|].
  apply (unverified_requests_reach_four_controllers
           (fun _ => false) UserRoutes.PATCH "/update-account" []);
    reflexivity.
Defined.

Lemma uploads_without_token_only_at_register_witness :
  In (UserRoutes.upload_fields [("avatar", 1); ("coverImage", 1)])
     (fst (UserRoutes.serve UserRoutes.is_upload UserRoutes.POST "/register"))
  /\ UserRoutes.POST = UserRoutes.POST /\ "/register" = "/register".
Proof.
  split; [left; reflexivity|].
  apply (uploads_without_token_only_at_register
           UserRoutes.is_upload UserRoutes.POST "/register"
           (UserRoutes.upload_fields [("avatar", 1); ("coverImage", 1)]));
    [reflexivity | left; reflexivity | reflexivity].
Defined.
